(** * Text-metrics pipeline: a shallow embedding of [main_pipline.py]

    The development follows the source file top-down: character and string
    primitives of the Python runtime that the program relies on, the helper
    functions ([count_syllables], [is_complex], [count_personal_pronouns]),
    the article extraction loop, the metrics engine [analyze_text] and the
    driver [main].

    Conventions.
    - A Python [str] is a [string]; its characters are the code points
      U+0000..U+00FF, which is what the type [ascii] offers.  The character
      classes below ([isalpha], [\w], [lower]) are the Unicode ones
      restricted to that range.
    - A Python [int] is a [Z].  A Python [float] is the rational number it
      denotes ([Q]); a floating-point operation returns the exact result
      rounded to binary64 by [round] (to nearest, ties to even, with gradual
      underflow).  The exponent range is taken to be unbounded above: the
      numbers converted to floats here are list lengths, and overflow is
      not modelled.
    - A raised exception is an explicit [Raise] result. *)

From Stdlib Require Import ZArith QArith Qabs Qround Qpower Ascii String List Bool Lia Lqa.
From stdpp Require Import base decidable option list strings gmap.

Local Open Scope Z_scope.
Local Open Scope string_scope.
Local Open Scope list_scope.

(** ** Python runtime primitives on characters and strings *)

Module Py.

Definition ord (c : ascii) : N := N_of_ascii c.
Definition chr (n : N) : ascii := ascii_of_N n.

Definition between (lo hi n : N) : bool := (lo <=? n)%N && (n <=? hi)%N.

(** [str.lower] on one character: A-Z and the upper-case letters of the
    Latin-1 supplement (all of 0xC0..0xDE but the multiplication sign). *)
Definition lower_char (c : ascii) : ascii :=
  let n := ord c in
  if between 65 90 n || (between 192 222 n && negb (n =? 215)%N)
  then chr (n + 32) else c.

Fixpoint lower (s : string) : string :=
  match s with
  | EmptyString => EmptyString
  | String c s' => String (lower_char c) (lower s')
  end.

(** [str.isalpha] on one character. *)
Definition isalpha_char (c : ascii) : bool :=
  let n := ord c in
  between 65 90 n || between 97 122 n
  || (n =? 170)%N || (n =? 181)%N || (n =? 186)%N
  || between 192 214 n || between 216 246 n || between 248 255 n.

(** The regular-expression class [\w] on [str] patterns: alphanumeric
    (alphabetic, decimal, digit or numeric) or the underscore. *)
Definition isword_char (c : ascii) : bool :=
  let n := ord c in
  isalpha_char c || between 48 57 n || (n =? 95)%N
  || between 178 179 n || (n =? 185)%N || between 188 190 n.

Fixpoint forallb_str (p : ascii -> bool) (s : string) : bool :=
  match s with
  | EmptyString => true
  | String c s' => p c && forallb_str p s'
  end.

(** [s.isalpha()]: every character is alphabetic and there is at least
    one character. *)
Definition isalpha (s : string) : bool :=
  match s with
  | EmptyString => false
  | _ => forallb_str isalpha_char s
  end.

(** [c in s] for a one-character [c]. *)
Fixpoint char_in (c : ascii) (s : string) : bool :=
  match s with
  | EmptyString => false
  | String d s' => Ascii.eqb c d || char_in c s'
  end.

(** [s.startswith(p)]. *)
Definition startswith (s p : string) : bool := String.prefix p s.

(** [s.endswith(suffix)]. *)
Definition endswith (s suffix : string) : bool :=
  let n := String.length s in
  let k := String.length suffix in
  (k <=? n)%nat && String.eqb (substring (n - k) k s) suffix.

(** [s.endswith((a, b, ...))]: a tuple of suffixes. *)
Definition endswith_any (s : string) (suffixes : list string) : bool :=
  existsb (endswith s) suffixes.

(** [sep.join(parts)]. *)
Fixpoint join (sep : string) (parts : list string) : string :=
  match parts with
  | [] => ""
  | [p] => p
  | p :: ps => p ++ sep ++ join sep ps
  end.

Definition newline : string := String (chr 10) EmptyString.

End Py.

(** ** Helper functions *)

(** The [for char in word] loop of [count_syllables], with its two loop
    variables [count] and [prev_vowel]. *)
Fixpoint syllable_scan (vowels word : string) (count : Z) (prev_vowel : bool) : Z :=
  match word with
  | EmptyString => count
  | String char rest =>
      if Py.char_in char vowels
      then syllable_scan vowels rest (if prev_vowel then count else count + 1) true
      else syllable_scan vowels rest count false
  end.

Definition count_syllables (word : string) : Z :=
  let word := Py.lower word in
  let vowels := "aeiou" in
  let count := syllable_scan vowels word 0 false in
  let count := if Py.endswith_any word ["es"; "ed"] then count - 1 else count in
  Z.max count 1.

Definition is_complex (word : string) : bool :=
  (2 <? count_syllables word)%Z.

(** ** Regular expressions, as far as [count_personal_pronouns] needs them

    A backtracking matcher in continuation-passing style over the pattern
    syntax used by the program: literals, concatenation, ordered
    alternation and the zero-width word boundary.  [prev] is the character
    before the current position ([None] at the start of the text); the
    matcher returns the text left after the match. *)

Inductive regex : Type :=
| Eps
| Lit (c : ascii)
| Cat (r1 r2 : regex)
| Alt (r1 r2 : regex)
| WordBoundary.

(** A pattern that matches the characters of [s] in sequence. *)
Fixpoint re_str (s : string) : regex :=
  match s with
  | EmptyString => Eps
  | String c s' => Cat (Lit c) (re_str s')
  end.

(** [(r1|r2|...)]: the alternatives are tried in the order written. *)
Fixpoint re_alt (rs : list regex) : regex :=
  match rs with
  | [] => Eps
  | [r] => r
  | r :: rs' => Alt r (re_alt rs')
  end.

Definition is_word (o : option ascii) : bool :=
  match o with
  | Some c => Py.isword_char c
  | None => false
  end.

Definition head_char (s : string) : option ascii :=
  match s with
  | EmptyString => None
  | String c _ => Some c
  end.

(** [\b]: exactly one of the two neighbouring positions holds a word
    character; outside the text counts as a non-word character. *)
Definition at_boundary (prev : option ascii) (s : string) : bool :=
  xorb (is_word prev) (is_word (head_char s)).

(** A literal under the flag [re.I] compares lower-cased characters. *)
Definition lit_matches (ignorecase : bool) (c x : ascii) : bool :=
  if ignorecase
  then Ascii.eqb (Py.lower_char x) (Py.lower_char c)
  else Ascii.eqb x c.

Fixpoint rmatch (ignorecase : bool) (r : regex) (prev : option ascii) (s : string)
    (k : option ascii -> string -> option string) : option string :=
  match r with
  | Eps => k prev s
  | Lit c =>
      match s with
      | String x s' => if lit_matches ignorecase c x then k (Some x) s' else None
      | EmptyString => None
      end
  | Cat r1 r2 =>
      rmatch ignorecase r1 prev s (fun p s' => rmatch ignorecase r2 p s' k)
  | Alt r1 r2 =>
      match rmatch ignorecase r1 prev s k with
      | Some rest => Some rest
      | None => rmatch ignorecase r2 prev s k
      end
  | WordBoundary => if at_boundary prev s then k prev s else None
  end.

(** The continuation of the pattern after its group: the closing [\b]. *)
Definition closing_boundary (prev : option ascii) (s : string) : option string :=
  if at_boundary prev s then Some s else None.

(** One match attempt anchored at the current position. *)
Definition match_here (ignorecase : bool) (r : regex) (prev : option ascii) (s : string)
    : option string :=
  rmatch ignorecase r prev s (fun _ rest => Some rest).

(** The scan of [re.findall]: try a match at each position from left to
    right; after a match the scan resumes where the match ended ([skip]
    counts the characters of the match still to step over), so matches do
    not overlap.  The result lists the matched texts. *)
Fixpoint findall_from (ignorecase : bool) (r : regex) (prev : option ascii)
    (s : string) (skip : nat) : list string :=
  match s with
  | EmptyString =>
      match skip with
      | O =>
          match match_here ignorecase r prev EmptyString with
          | Some _ => [EmptyString]
          | None => []
          end
      | S _ => []
      end
  | String c s' =>
      match skip with
      | S n => findall_from ignorecase r (Some c) s' n
      | O =>
          match match_here ignorecase r prev s with
          | Some rest =>
              let len := (String.length s - String.length rest)%nat in
              substring 0 len s :: findall_from ignorecase r (Some c) s' (len - 1)
          | None => findall_from ignorecase r (Some c) s' 0
          end
      end
  end.

Definition findall (r : regex) (text : string) (ignorecase : bool) : list string :=
  findall_from ignorecase r None text 0.

(** The pattern [\b(I|we|my|ours|us)\b]. *)
Definition pronoun_pattern : regex :=
  Cat WordBoundary
    (Cat (re_alt (map re_str ["I"; "we"; "my"; "ours"; "us"])) WordBoundary).

Definition count_personal_pronouns (text : string) : Z :=
  let pattern := pronoun_pattern in
  Z.of_nat (length (findall pattern text true)).

(** *** Whole words, for comparison with the regular expression

    The text cut into its maximal runs of word characters; [cur] is the run
    being read. *)
Definition flush (cur : string) : list string :=
  match cur with
  | EmptyString => []
  | _ => [cur]
  end.

Fixpoint word_runs_from (cur s : string) : list string :=
  match s with
  | EmptyString => flush cur
  | String c s' =>
      if Py.isword_char c
      then word_runs_from (cur ++ String c EmptyString) s'
      else flush cur ++ word_runs_from EmptyString s'
  end.

Definition word_runs (text : string) : list string := word_runs_from "" text.

(** The word characters a text starts with, and what follows them. *)
Fixpoint take_word (s : string) : string :=
  match s with
  | EmptyString => EmptyString
  | String c s' => if Py.isword_char c then String c (take_word s') else EmptyString
  end.

Fixpoint drop_word (s : string) : string :=
  match s with
  | EmptyString => EmptyString
  | String c s' => if Py.isword_char c then drop_word s' else s
  end.

Definition pronouns : list string := ["i"; "we"; "my"; "ours"; "us"].

(** A word that is one of the five pronouns, in any letter case. *)
Definition is_pronoun (w : string) : bool :=
  existsb (String.eqb (Py.lower w)) pronouns.

Definition count_pronouns (ws : list string) : nat :=
  length (filter (fun w => Is_true (is_pronoun w)) ws).

(** The number of whole words of the text that are pronouns. *)
Definition whole_word_pronouns (text : string) : Z :=
  Z.of_nat (count_pronouns (word_runs text)).

(** ** Numbers, exceptions *)

Inductive exn : Type :=
| ZeroDivisionError
| RequestException (msg : string)
| HTTPError (status : Z)
| ParserError (msg : string)
| OSError (msg : string).

Inductive result (A : Type) : Type :=
| Ok (a : A)
| Raise (e : exn).

Arguments Ok {A} a.
Arguments Raise {A} e.

#[global] Instance result_ret : MRet result := fun A a => Ok a.

#[global] Instance result_bind : MBind result :=
  fun A B f m =>
    match m with
    | Ok a => f a
    | Raise e => Raise e
    end.

(** A Python number as the program handles them: an [int] or a [float]. *)
Inductive pynum : Type :=
| PyInt (z : Z)
| PyFloat (q : Q).

(** The value of a number. *)
Definition to_Q (x : pynum) : Q :=
  match x with
  | PyInt z => inject_Z z
  | PyFloat q => q
  end.

(** *** The floating-point format

    [round q] is the float that represents the rational [q]: a
    floating-point operation, a float literal and the conversion of an
    [int] to a [float] all return [round] of the exact value. *)

(** The integer nearest to [x], the even one of the two when [x] lies
    halfway. *)
Definition round_half_even (x : Q) : Z :=
  let n := Qfloor x in
  match (x - inject_Z n ?= 1 # 2)%Q with
  | Lt => n
  | Gt => n + 1
  | Eq => if Z.even n then n else n + 1
  end.

(** What [round_half_even] computes: [m] is within one half of [x], and
    even when exactly one half away. *)
Definition nearest_even (x : Q) (m : Z) : Prop :=
  (inject_Z m - (1 # 2) <= x)%Q /\ (x <= inject_Z m + (1 # 2))%Q
  /\ (x == inject_Z m - (1 # 2) -> Z.even m = true)
  /\ (x == inject_Z m + (1 # 2) -> Z.even m = true).

(** The integer part of the binary logarithm of a positive rational. *)
Definition ilog2 (x : Q) : Z :=
  if Qle_bool 1 x then Z.log2 (Qfloor x) else - Z.log2_up (Qceiling (/ x)).

(** The exponent of the last place of the float nearest to [x]: 53
    significant bits, and no exponent below that of the subnormals. *)
Definition ulp_exponent (x : Q) : Z := Z.max (ilog2 (Qabs x) - 52) (-1074).

Definition round (x : Q) : Q :=
  let e := ulp_exponent x in
  (inject_Z (round_half_even (x / 2 ^ e)) * 2 ^ e)%Q.

(** A float literal. *)
Definition float_literal (q : Q) : pynum := PyFloat (round q).

(** The operand of a float operation: an [int] is converted first. *)
Definition as_float (x : pynum) : Q :=
  match x with
  | PyInt z => round (inject_Z z)
  | PyFloat q => q
  end.

(** [x + y]: an [int] when both operands are, a [float] otherwise. *)
Definition py_add (x y : pynum) : pynum :=
  match x, y with
  | PyInt a, PyInt b => PyInt (a + b)
  | _, _ => PyFloat (round (as_float x + as_float y))
  end.

Definition py_mul (x y : pynum) : pynum :=
  match x, y with
  | PyInt a, PyInt b => PyInt (a * b)
  | _, _ => PyFloat (round (as_float x * as_float y))
  end.

(** [x / y]: true division, always a [float]; a zero divisor raises.  The
    quotient of two [int]s is the exact quotient, rounded once. *)
Definition py_truediv (x y : pynum) : result pynum :=
  match x, y with
  | PyInt a, PyInt b =>
      if (b =? 0)%Z then Raise ZeroDivisionError
      else Ok (PyFloat (round (inject_Z a / inject_Z b)))
  | _, _ =>
      if Qeq_bool (as_float y) 0 then Raise ZeroDivisionError
      else Ok (PyFloat (round (as_float x / as_float y)))
  end.

(** Truth value of an [int] in a condition. *)
Definition truthy (z : Z) : bool := negb (z =? 0)%Z.

(** [sum(...)] over integers and [len(...)]. *)
Definition py_sum (l : list Z) : Z := fold_left Z.add l 0%Z.
Definition len {A : Type} (l : list A) : Z := Z.of_nat (length l).
Definition str_len (s : string) : Z := Z.of_nat (String.length s).

(** ** Path configuration *)

Definition ARTICLE_FOLDER : string := "src/extracted_articles".
Definition OUTPUT_FILE : string := "Output Data Structure.xlsx".

(** [os.path.join(a, b)] on a POSIX system. *)
Definition os_path_join (a b : string) : string :=
  if Py.startswith b "/" then b
  else if String.eqb a "" || Py.endswith a "/" then a ++ b
  else a ++ "/" ++ b.

(** ** Network configuration *)

Definition REQUEST_TIMEOUT : Z := 15.
Definition RETRY_TOTAL : Z := 3.
Definition RETRY_BACKOFF : Z := 1.

(** The arguments with which the program builds the [Retry] object that it
    mounts on the session.  What the adapter does with them is given
    below, under "The retries of the adapter". *)
Record retry_arguments : Type := {
  total : Z;
  connect : Z;
  read : Z;
  backoff_factor : Z;
  status_forcelist : list Z;
  allowed_methods : list string
}.

Definition retries : retry_arguments :=
  {| total := RETRY_TOTAL;
     connect := RETRY_TOTAL;
     read := RETRY_TOTAL;
     backoff_factor := RETRY_BACKOFF;
     status_forcelist := [429; 500; 502; 503; 504];
     allowed_methods := ["GET"] |}.

(** ** Step 1: article extraction *)

(** One row of the input table. *)
Record row : Type := { URL_ID : string; URL : string }.

(** What the program reads off a parsed page: the stripped text of the
    first [h1], if there is one, and the stripped texts of the paragraphs of
    the first [div] of class [td-post-content], if there is one. *)
Record soup : Type := {
  find_h1 : option string;
  find_content_div : option (list string)
}.

(** A response: its status and what parsing its text gives, a page or an
    exception of the parser. *)
Record response : Type := { status_code : Z; parsed : result soup }.

(** [response.raise_for_status()]: client and server error statuses
    raise. *)
Definition raise_for_status (r : response) : result unit :=
  if (400 <=? status_code r)%Z && (status_code r <? 600)%Z
  then Raise (HTTPError (status_code r))
  else Ok tt.

(** Lines printed by the program. *)
Inductive line : Type :=
| Info (msg : string)
| Saved (file : string)
| Failed (url_id : string) (e : exn).

(** The part of the world the program changes: the files it writes (path
    to content) and its standard output. *)
Record world : Type := {
  files : gmap string string;
  stdout : list line
}.

Definition print (l : line) (w : world) : world :=
  {| files := files w; stdout := stdout w ++ [l] |}.

Definition write_file (path content : string) (w : world) : world :=
  {| files := <[path := content]> (files w); stdout := stdout w |}.

(** How [with open(path, "w") as f: f.write(content)] ends: the file holds
    the content; or [open] raises and no file is touched (a missing
    directory, a name the system refuses); or the file is opened, hence
    created or emptied, and writing or closing raises, which leaves [remains]
    in the file. *)
Inductive write_outcome : Type :=
| Written
| OpenRaises (e : exn)
| WriteRaises (e : exn) (remains : string).

Definition article_file (url_id : string) : string := url_id ++ ".txt".

(** The path under which the article of [url_id] is written and looked up:
    [os.path.join(ARTICLE_FOLDER, f"{url_id}.txt")]. *)
Definition article_path (url_id : string) : string :=
  os_path_join ARTICLE_FOLDER (article_file url_id).

Section Extraction.

(** [session.get(url, timeout=REQUEST_TIMEOUT)] through the mounted
    adapter, retries included: a response or a raised exception. *)
Variable session_get : string -> result response.

(** What the file system does with an attempt to write [content] to
    [path]. *)
Variable file_write : string -> string -> write_outcome.

(** The body of the [try] block up to the parsed page. *)
Definition fetch_soup (url : string) : result soup :=
  response ← session_get url;
  _ ← raise_for_status response;
  parsed response.

(** One iteration of the [for _, row in df.iterrows()] loop: whatever is
    raised inside the [try] block, by the request, by the parser or by the
    file system, ends in the "Failed" line. *)
Definition extract_row (w : world) (r : row) : world :=
  let url_id := URL_ID r in
  let url := URL r in
  match fetch_soup url with
  | Ok soup =>
      let title_text := match find_h1 soup with Some t => t | None => "" end in
      let article_text :=
        match find_content_div soup with
        | Some paragraphs => Py.join Py.newline paragraphs
        | None => ""
        end in
      let file_path := os_path_join ARTICLE_FOLDER (article_file url_id) in
      let content := (title_text ++ Py.newline ++ Py.newline ++ article_text)%string in
      match file_write file_path content with
      | Written =>
          let w := write_file file_path content w in
          print (Saved (article_file url_id)) w
      | OpenRaises e => print (Failed url_id e) w
      | WriteRaises e remains =>
          let w := write_file file_path remains w in
          print (Failed url_id e) w
      end
  | Raise e => print (Failed url_id e) w
  end.

Definition extract_articles (df : list row) (w : world) : world :=
  let w := print (Info "Extracting articles...") w in
  fold_left extract_row df w.

End Extraction.

(** ** The retries of the adapter

    The session sends every GET through the [HTTPAdapter] whose
    [max_retries] is the [Retry] object built from [retries].  The
    definitions of this part are modelled on urllib3's documentation of
    [Retry] and on the loop of [HTTPConnectionPool.urlopen] that consults
    it: [total] is the number of retries allowed after the first attempt,
    [connect] and [read] bound the retries after errors of these two kinds,
    a status of [status_forcelist] is retried, and so is a status of
    [RETRY_AFTER_STATUS_CODES] that comes with a Retry-After header; the
    pause before a retry is the one the Retry-After header asks for, or
    else nothing after the first failure and
    [backoff_factor * 2 ^ (failures - 1)] seconds after the later ones, at
    most [BACKOFF_MAX].  The adapter calls [urlopen] with [redirect=False]:
    a redirection is an answer like any other here, which the session then
    follows with a new request. *)

(** The Retry-After header of an answer: none, a number of seconds, or a
    value that cannot be read ([blank] when it is the empty string). *)
Inductive retry_after : Type :=
| NoRetryAfter
| RetryAfter (seconds : Q)
| BadRetryAfter (blank : bool).

(** How one attempt ends: the connection cannot be set up, it breaks or
    times out once the request is sent, another error, or an answer. *)
Inductive attempt : Type :=
| ConnectError (msg : string)
| ReadError (msg : string)
| OtherError (msg : string)
| Answer (r : response) (h : retry_after).

(** What the adapter does, as seen from outside. *)
Inductive event : Type :=
| Get
| Sleep (seconds : Q).

(** The [Retry] object: the counters left and the length of its history. *)
Record counters : Type := {
  total_left : Z;
  connect_left : Z;
  read_left : Z;
  history : nat
}.

Definition new_retry (a : retry_arguments) : counters :=
  {| total_left := total a;
     connect_left := connect a;
     read_left := read a;
     history := 0 |}.

Definition RETRY_AFTER_STATUS_CODES : list Z := [413; 429; 503].
Definition BACKOFF_MAX : Z := 120.

Definition has_retry_after (h : retry_after) : bool :=
  match h with
  | NoRetryAfter => false
  | RetryAfter _ => true
  | BadRetryAfter blank => negb blank
  end.

(** [method] is in upper case already, as the session leaves it. *)
Definition is_method_retryable (a : retry_arguments) (method : string) : bool :=
  match allowed_methods a with
  | [] => true
  | methods => existsb (String.eqb method) methods
  end.

Definition is_retry (a : retry_arguments) (c : counters) (method : string)
    (status : Z) (with_retry_after : bool) : bool :=
  if negb (is_method_retryable a method) then false
  else if existsb (Z.eqb status) (status_forcelist a) then true
  else negb (total_left c =? 0)%Z && with_retry_after
       && existsb (Z.eqb status) RETRY_AFTER_STATUS_CODES.

(** The counters that are neither [None] nor 0 decide: one of them below 0
    exhausts the retries. *)
Definition is_exhausted (c : counters) : bool :=
  match List.filter (fun x => negb (x =? 0)%Z)
                    [total_left c; connect_left c; read_left c] with
  | [] => false
  | x :: l => (fold_left Z.min l x <? 0)%Z
  end.

Definition max_retries_exceeded : exn := RequestException "Max retries exceeded".

(** [Retry.increment]: the counters after a failed attempt, or the
    exception when no retry is left. *)
Definition increment (a : retry_arguments) (c : counters) (method : string)
    (o : attempt) : result counters :=
  let finish c' := if is_exhausted c' then Raise max_retries_exceeded else Ok c' in
  match o with
  | ConnectError _ =>
      finish {| total_left := total_left c - 1;
                connect_left := connect_left c - 1;
                read_left := read_left c;
                history := S (history c) |}
  | ReadError msg =>
      if negb (is_method_retryable a method) then Raise (RequestException msg)
      else finish {| total_left := total_left c - 1;
                     connect_left := connect_left c;
                     read_left := read_left c - 1;
                     history := S (history c) |}
  | OtherError _ | Answer _ _ =>
      finish {| total_left := total_left c - 1;
                connect_left := connect_left c;
                read_left := read_left c;
                history := S (history c) |}
  end.

Definition get_backoff_time (a : retry_arguments) (c : counters) : Z :=
  if (history c <=? 1)%nat then 0
  else Z.min BACKOFF_MAX (backoff_factor a * 2 ^ (Z.of_nat (history c) - 1)).

Definition sleep_backoff (a : retry_arguments) (c : counters) : list event :=
  let backoff := get_backoff_time a c in
  if (backoff <=? 0)%Z then [] else [Sleep (inject_Z backoff)].

(** [Retry.sleep]: after an answer, the pause that its Retry-After header
    asks for, if it asks for one; the backoff otherwise. *)
Definition sleep (a : retry_arguments) (c : counters) (h : retry_after)
    : result (list event) :=
  match h with
  | NoRetryAfter => Ok (sleep_backoff a c)
  | RetryAfter seconds =>
      if Qle_bool seconds 0 then Ok (sleep_backoff a c) else Ok [Sleep seconds]
  | BadRetryAfter _ => Raise (RequestException "Invalid Retry-After header")
  end.

(** What follows an attempt. *)
Inductive verdict : Type :=
| Return (res : result response)
| TryAgain (c : counters) (pause : list event).

Definition after_attempt (a : retry_arguments) (c : counters) (method : string)
    (o : attempt) : verdict :=
  match o with
  | Answer r h =>
      if is_retry a c method (status_code r) (has_retry_after h) then
        match increment a c method o with
        | Raise e => Return (Raise e)
        | Ok c' =>
            match sleep a c' h with
            | Raise e => Return (Raise e)
            | Ok pause => TryAgain c' pause
            end
        end
      else Return (Ok r)
  | _ =>
      match increment a c method o with
      | Raise e => Return (Raise e)
      | Ok c' => TryAgain c' (sleep_backoff a c')
      end
  end.

(** [urlopen], which calls itself for each retry; [net k] is how the
    attempt after [k] failed ones ends.  [fuel] bounds the depth of the
    calls. *)
Fixpoint urlopen (fuel : nat) (a : retry_arguments) (net : nat -> attempt)
    (method : string) (c : counters) : option (list event * result response) :=
  match fuel with
  | O => None
  | S fuel =>
      match after_attempt a c method (net (history c)) with
      | Return res => Some ([Get], res)
      | TryAgain c' pause =>
          match urlopen fuel a net method c' with
          | Some (events, res) => Some (Get :: pause ++ events, res)
          | None => None
          end
      end
  end.

(** One GET of the session through the adapter; the depth [total + 1] is
    enough for every network (see [adapter_send_returns]). *)
Definition adapter_send (net : nat -> attempt) : option (list event * result response) :=
  urlopen (S (Z.to_nat (total retries))) retries net "GET" (new_retry retries).

(** The number of GET attempts in a trace, and the sleeps between one
    attempt and the next. *)
Definition gets (events : list event) : nat :=
  length (List.filter (fun e => match e with Get => true | Sleep _ => false end) events).

Fixpoint pauses_from (events : list event) (slept : list Q) : list (list Q) :=
  match events with
  | [] => []
  | Get :: events => rev slept :: pauses_from events []
  | Sleep s :: events => pauses_from events (s :: slept)
  end.

Definition pauses (events : list event) : list (list Q) :=
  tl (pauses_from events []).

(** The Retry-After header of an attempt, if it ends in an answer. *)
Definition header (o : attempt) : retry_after :=
  match o with
  | Answer _ h => h
  | _ => NoRetryAfter
  end.

(** The outcomes after which the documentation lets the adapter retry. *)
Definition retryable (o : attempt) : bool :=
  match o with
  | ConnectError _ | ReadError _ | OtherError _ => true
  | Answer r h =>
      existsb (Z.eqb (status_code r)) [429; 500; 502; 503; 504]
      || has_retry_after h && existsb (Z.eqb (status_code r)) [413; 429; 503]
  end.

(** A server that is busy at every attempt. *)
Definition busy_server (k : nat) : attempt :=
  Answer {| status_code := 503;
            parsed := Ok {| find_h1 := None; find_content_div := None |} |}
         NoRetryAfter.

(** ** Step 2: text analysis *)

Section Analysis.

(** The two tokenizers are capabilities of the environment: any functions
    from a text to its sentences and to its word tokens. *)
Variable sent_tokenize : string -> list string.
Variable word_tokenize : string -> list string.

(** [[w.lower() for w in words if w.isalpha() and w.lower() not in stop_words]] *)
Definition cleaned_words_of (words : list string) (stop_words : gset string) : list string :=
  map Py.lower
    (filter (fun w => Is_true (Py.isalpha w) /\ Py.lower w ∉ stop_words) words).

(** [sum(1 for w in cleaned_words if w in lexicon)] *)
Definition lexicon_score (cleaned_words : list string) (lexicon : gset string) : Z :=
  py_sum (map (fun _ => 1%Z) (filter (fun w => w ∈ lexicon) cleaned_words)).

(** The literal [0.000001]. *)
Definition epsilon : pynum := float_literal (1 # 1000000).

Definition polarity_score_of (positive_score negative_score : Z) : result pynum :=
  py_truediv (PyInt (positive_score - negative_score))
             (py_add (PyInt (positive_score + negative_score)) epsilon).

Definition subjectivity_score_of (positive_score negative_score word_count : Z) : result pynum :=
  py_truediv (PyInt (positive_score + negative_score))
             (py_add (PyInt word_count) epsilon).

(** [a / b if b else 0] *)
Definition ratio_or_zero (a b : Z) : result pynum :=
  if truthy b then py_truediv (PyInt a) (PyInt b) else mret (PyInt 0).

Definition analyze_text (text : string)
    (stop_words positive_words negative_words : gset string) : result (list pynum) :=
  let sentences := sent_tokenize text in
  let words := word_tokenize text in
  let cleaned_words := cleaned_words_of words stop_words in
  let word_count := len cleaned_words in
  let sentence_count := len sentences in
  let positive_score := lexicon_score cleaned_words positive_words in
  let negative_score := lexicon_score cleaned_words negative_words in
  polarity_score ← polarity_score_of positive_score negative_score;
  subjectivity_score ← subjectivity_score_of positive_score negative_score word_count;
  avg_sentence_length ← ratio_or_zero word_count sentence_count;
  let complex_words := filter (fun w => Is_true (is_complex w)) cleaned_words in
  let complex_word_count := len complex_words in
  percentage_complex_words ← ratio_or_zero complex_word_count word_count;
  let fog_index :=
    py_mul (float_literal (4 # 10)) (py_add avg_sentence_length percentage_complex_words) in
  syllables_per_word ←
    ratio_or_zero (py_sum (map count_syllables cleaned_words)) word_count;
  let personal_pronouns := count_personal_pronouns text in
  avg_word_length ← ratio_or_zero (py_sum (map str_len cleaned_words)) word_count;
  mret [ PyInt positive_score;
         PyInt negative_score;
         polarity_score;
         subjectivity_score;
         avg_sentence_length;
         percentage_complex_words;
         fog_index;
         avg_sentence_length;
         PyInt complex_word_count;
         PyInt word_count;
         syllables_per_word;
         PyInt personal_pronouns;
         avg_word_length ].

(** ** Main execution *)

(** A cell of a result row: an identifier or URL, or a metric. *)
Inductive cell : Type :=
| Str (s : string)
| Num (x : pynum).

(** The second [for _, row in df.iterrows()] loop, over the files as they
    are after the extraction; [results] is the list being appended to. *)
Fixpoint analyze_rows (df : list row) (fs : gmap string string)
    (stop_words positive_words negative_words : gset string)
    (results : list (list cell)) : result (list (list cell)) :=
  match df with
  | [] => mret results
  | r :: df' =>
      let url_id := URL_ID r in
      let url := URL r in
      let article_path := os_path_join ARTICLE_FOLDER (article_file url_id) in
      match fs !! article_path with
      | None => analyze_rows df' fs stop_words positive_words negative_words results
      | Some text =>
          metrics ← analyze_text text stop_words positive_words negative_words;
          analyze_rows df' fs stop_words positive_words negative_words
            (results ++ [[Str url_id; Str url] ++ map Num metrics])
      end
  end.

Definition columns : list string :=
  [ "URL_ID"; "URL";
    "POSITIVE SCORE"; "NEGATIVE SCORE"; "POLARITY SCORE"; "SUBJECTIVITY SCORE";
    "AVG SENTENCE LENGTH"; "PERCENTAGE OF COMPLEX WORDS"; "FOG INDEX";
    "AVG NUMBER OF WORDS PER SENTENCE"; "COMPLEX WORD COUNT"; "WORD COUNT";
    "SYLLABLE PER WORD"; "PERSONAL PRONOUNS"; "AVG WORD LENGTH" ].

(** The table handed to [to_excel]: the header and the rows. *)
Record dataframe : Type := { df_columns : list string; df_rows : list (list cell) }.

Variable session_get : string -> result response.
Variable file_write : string -> string -> write_outcome.

(** [main], given the input table and the three word sets already loaded.
    It returns the world it leaves behind and the table it writes. *)
Definition main (df : list row) (stop_words positive_words negative_words : gset string)
    (w : world) : result (world * dataframe) :=
  let w := print (Info "Loading resources...") w in
  let w := extract_articles session_get file_write df w in
  let w := print (Info "Performing text analysis...") w in
  results ← analyze_rows df (files w) stop_words positive_words negative_words [];
  let output_df := {| df_columns := columns; df_rows := results |} in
  let w := print (Info "Analysis completed successfully.") w in
  let w := print (Info ("Output saved as: " ++ OUTPUT_FILE)) w in
  mret (w, output_df).

(** *** The report, as the specification describes it *)

(** Request [r] has a stored article among the files [fs]. *)
Definition has_article (fs : gmap string string) (r : row) : Prop :=
  is_Some (fs !! article_path (URL_ID r)).

(** [cells] is the report row of request [r]: its id, its URL and the
    metrics of its stored article. *)
Definition is_report_row (fs : gmap string string)
    (stop_words positive_words negative_words : gset string)
    (r : row) (cells : list cell) : Prop :=
  exists text metrics,
    fs !! article_path (URL_ID r) = Some text
    /\ analyze_text text stop_words positive_words negative_words = Ok metrics
    /\ cells = [Str (URL_ID r); Str (URL r)] ++ map Num metrics.

End Analysis.

(** ** Sample environment, for running the definitions

    A tokenizer pair simple enough to evaluate by hand: words are separated
    by blanks, with a final full stop split off; sentences end at a full
    stop. *)
Fixpoint split_on (sep : ascii) (cur s : string) : list string :=
  match s with
  | EmptyString => flush cur
  | String c s' =>
      if Ascii.eqb c sep
      then flush cur ++ split_on sep EmptyString s'
      else split_on sep (cur ++ String c EmptyString) s'
  end.

Definition sample_sentences (text : string) : list string := split_on "." "" text.

Definition sample_words (text : string) : list string :=
  flat_map (fun s => split_on " " "" s ++ ["."]) (split_on "." "" text).

(** A site that answers every request with status 200 and a page without
    heading or article body. *)
Definition blank_site (url : string) : result response :=
  Ok {| status_code := 200;
        parsed := Ok {| find_h1 := None; find_content_div := None |} |}.

(** A file system that takes every write. *)
Definition plain_disk (path content : string) : write_outcome := Written.

(** A file system whose article folder has no sub-folder: a path with a
    slash after the folder cannot be opened. *)
Definition flat_disk (path content : string) : write_outcome :=
  if Py.char_in "/" (substring 23 (String.length path) path)
  then OpenRaises (OSError "No such file or directory")
  else Written.

Definition empty_world : world := {| files := ∅; stdout := [] |}.

(** A site with five pages, the third of which is not found. *)
Definition sample_site (url : string) : result response :=
  let page (title : string) (body : list string) :=
    Ok {| find_h1 := Some title; find_content_div := Some body |} in
  if String.eqb url "http://site/c"
  then Ok {| status_code := 404; parsed := page "" [] |}
  else Ok {| status_code := 200; parsed := page "News" ["I love this."; "We love that."] |}.

Definition sample_requests : list row :=
  [ {| URL_ID := "a"; URL := "http://site/a" |};
    {| URL_ID := "b"; URL := "http://site/b" |};
    {| URL_ID := "c"; URL := "http://site/c" |};
    {| URL_ID := "d"; URL := "http://site/d" |};
    {| URL_ID := "e"; URL := "http://site/e" |} ].

(** The first two cells of a report row. *)
Definition row_key (cells : list cell) : list cell := take 2 cells.

(** ** What the extraction writes and prints, row by row *)

(** The text stored for a page: title, blank line, paragraphs. *)
Definition page_content (page : soup) : string :=
  let title_text := match find_h1 page with Some t => t | None => "" end in
  let article_text :=
    match find_content_div page with
    | Some paragraphs => Py.join Py.newline paragraphs
    | None => ""
    end in
  title_text ++ Py.newline ++ Py.newline ++ article_text.

Section ExtractionRows.

Variable session_get : string -> result response.
Variable file_write : string -> string -> write_outcome.

(** The line printed for row [r]: "Saved" when the request, the parser and
    the file system all go through, "Failed" with what was raised
    otherwise. *)
Definition row_line (r : row) : line :=
  match fetch_soup session_get (URL r) with
  | Ok page =>
      match file_write (article_path (URL_ID r)) (page_content page) with
      | Written => Saved (article_file (URL_ID r))
      | OpenRaises e => Failed (URL_ID r) e
      | WriteRaises e _ => Failed (URL_ID r) e
      end
  | Raise e => Failed (URL_ID r) e
  end.

(** What row [r] leaves in a file, if it touches one: the path and the
    content. *)
Definition row_write (r : row) : option (string * string) :=
  match fetch_soup session_get (URL r) with
  | Ok page =>
      match file_write (article_path (URL_ID r)) (page_content page) with
      | Written => Some (article_path (URL_ID r), page_content page)
      | OpenRaises _ => None
      | WriteRaises _ remains => Some (article_path (URL_ID r), remains)
      end
  | Raise _ => None
  end.

End ExtractionRows.

(** Writing a sequence of files, in order. *)
Definition write_all (ws : list (string * string)) (m : gmap string string)
    : gmap string string :=
  fold_left (fun m kv => <[kv.1 := kv.2]> m) ws m.

(** The content last written to [path] by a sequence of writes, [acc] if
    there is none. *)
Definition last_write (path : string) (ws : list (string * string))
    (acc : option string) : option string :=
  fold_left (fun acc kv => if decide (kv.1 = path) then Some kv.2 else acc) ws acc.

(** ** Loading the word lists *)

Module PyFile.

(** [str.isspace] on one character. *)
Definition isspace_char (c : ascii) : bool :=
  let n := Py.ord c in
  Py.between 9 13 n || Py.between 28 32 n || (n =? 133)%N || (n =? 160)%N.

(** [s.lstrip()], [s.rstrip()] and [s.strip()]. *)
Fixpoint lstrip (s : string) : string :=
  match s with
  | EmptyString => EmptyString
  | String c s' => if isspace_char c then lstrip s' else s
  end.

Fixpoint rstrip (s : string) : string :=
  match s with
  | EmptyString => EmptyString
  | String c s' =>
      let r := rstrip s' in
      if isspace_char c && String.eqb r "" then EmptyString else String c r
  end.

Definition strip (s : string) : string := rstrip (lstrip s).

(** The lines of a text file opened in text mode, as iterating over the
    file yields them: a line ends at a line feed, at a carriage return or
    at a carriage return followed by a line feed, each of which is read as
    one line feed that stays on the line; the last line may lack it.
    [cur] is the line being read. *)
Fixpoint lines_from (cur s : string) : list string :=
  match s with
  | EmptyString => flush cur
  | String c s' =>
      if Ascii.eqb c (Py.chr 10)
      then (cur ++ Py.newline)%string :: lines_from EmptyString s'
      else if Ascii.eqb c (Py.chr 13)
      then match s' with
           | String d s'' =>
               if Ascii.eqb d (Py.chr 10)
               then (cur ++ Py.newline)%string :: lines_from EmptyString s''
               else (cur ++ Py.newline)%string :: lines_from EmptyString s'
           | EmptyString => (cur ++ Py.newline)%string :: lines_from EmptyString s'
           end
      else lines_from (cur ++ String c EmptyString) s'
  end.

Definition readlines (content : string) : list string := lines_from "" content.

End PyFile.

(** [load_dictionary], given the content of the file (its bytes read as
    Latin-1). *)
Definition load_dictionary (content : string) : gset string :=
  list_to_set (map (fun word => Py.lower (PyFile.strip word)) (PyFile.readlines content)).

(** [load_stopwords], given the entries of the folder in the order in which
    [os.listdir] returns them, each with the content of the file. *)
Definition load_stopwords (folder : list (string * string)) : gset string :=
  fold_left
    (fun stop_words entry =>
       let file := entry.1 in
       if Py.endswith file ".txt"
       then stop_words
              ∪ list_to_set (map (fun word => Py.lower (PyFile.strip word))
                                 (PyFile.readlines entry.2))
       else stop_words)
    folder ∅.

(** A text that does not start with white space. *)
Definition starts_clean (s : string) : bool :=
  match s with
  | EmptyString => true
  | String c _ => negb (PyFile.isspace_char c)
  end.

(** Two word sets that hold the same lower-cased forms of alphabetic
    tokens. *)
Definition same_clean_words (A B : gset string) : Prop :=
  forall t : string, Py.isalpha t = true -> (Py.lower t ∈ A <-> Py.lower t ∈ B).

(** * Properties *)

(** ** Syllables *)

(** C1 (as stated): on "created" the count would be 2.  It is not: "e" and
    "a" are adjacent and form one vowel group, not two. *)
Lemma created_not_two_syllables : count_syllables "created" <> 2.
Proof. vm_compute. discriminate. Qed.

(** C1 (amended): the word "created" has two vowel groups ("ea" and "e")
    and ends in "ed", so [count_syllables] returns 2 - 1 = 1, and
    [is_complex "created"] is false. *)
Theorem created_one_syllable :
  syllable_scan "aeiou" (Py.lower "created") 0 false = 2
  /\ Py.endswith_any (Py.lower "created") ["es"; "ed"] = true
  /\ count_syllables "created" = 1
  /\ is_complex "created" = false.
Proof. repeat split; vm_compute; reflexivity. Qed.

Lemma count_syllables_floor (word : string) : 1 <= count_syllables word.
Proof. unfold count_syllables. apply Z.le_max_r. Qed.

(** C2: for every non-empty alphabetic word [count_syllables] returns at
    least 1, also when the "es"/"ed" decrement brings the running count to
    0. *)
Theorem count_syllables_ge_1 (word : string) :
  word <> "" -> Py.isalpha word = true -> 1 <= count_syllables word.
Proof. intros _ _. apply count_syllables_floor. Qed.

Lemma count_syllables_ge_1_witness :
  "ed" <> "" /\ Py.isalpha "ed" = true
  /\ syllable_scan "aeiou" (Py.lower "ed") 0 false - 1 = 0
  /\ 1 <= count_syllables "ed".
Proof.
  split; [discriminate |].
  split; [reflexivity |].
  split; [reflexivity |].
  apply (count_syllables_ge_1 "ed"); [discriminate | reflexivity].
Defined.

(** ** Arithmetic of the metrics *)

Lemma fold_add_shift (l : list Z) (a : Z) :
  fold_left Z.add l a = a + fold_left Z.add l 0.
Proof.
  revert a. induction l as [| x l IH]; intros a; cbn [fold_left].
  - lia.
  - rewrite (IH (a + x)), (IH (0 + x)). lia.
Qed.

Lemma py_sum_cons (x : Z) (l : list Z) : py_sum (x :: l) = x + py_sum l.
Proof. unfold py_sum. simpl. apply fold_add_shift. Qed.

Lemma py_sum_ones {A : Type} (l : list A) :
  py_sum (map (fun _ => 1) l) = len l.
Proof.
  unfold len. induction l as [| x l IH].
  - reflexivity.
  - cbn [map length]. rewrite py_sum_cons, IH. lia.
Qed.

Lemma len_nonneg {A : Type} (l : list A) : 0 <= len l.
Proof. unfold len. lia. Qed.

Lemma len_filter_le {A : Type} (P : A -> Prop) `{!forall x, Decision (P x)} (l : list A) :
  len (filter P l) <= len l.
Proof. unfold len. pose proof (length_filter P l). lia. Qed.

Lemma lexicon_score_bounds (cleaned_words : list string) (lexicon : gset string) :
  0 <= lexicon_score cleaned_words lexicon <= len cleaned_words.
Proof.
  unfold lexicon_score. rewrite py_sum_ones.
  split; [apply len_nonneg | apply len_filter_le].
Qed.

Lemma Qeq_bool_pos (q : Q) : (0 < q)%Q -> Qeq_bool q 0 = false.
Proof.
  intros Hq. destruct (Qeq_bool q 0) eqn:E; [| reflexivity].
  apply Qeq_bool_eq in E. rewrite E in Hq. exfalso. revert Hq. apply Qlt_irrefl.
Qed.

Lemma inject_Z_nonneg (z : Z) : 0 <= z -> (0 <= inject_Z z)%Q.
Proof. intros Hz. change 0%Q with (inject_Z 0). rewrite <- Zle_Qle. exact Hz. Qed.

Lemma inject_Z_pos (z : Z) : 0 < z -> (0 < inject_Z z)%Q.
Proof. intros Hz. change 0%Q with (inject_Z 0). rewrite <- Zlt_Qlt. exact Hz. Qed.

(** A quotient of [a] by a positive [b] with [|a| <= b] lies in [-1, 1]. *)
Lemma Qdiv_in_unit (a b : Q) :
  (0 < b)%Q -> (- b <= a)%Q -> (a <= b)%Q -> (- 1 <= a / b)%Q /\ (a / b <= 1)%Q.
Proof.
  intros Hb Hlo Hhi. split.
  - apply Qle_shift_div_l; [exact Hb |]. lra.
  - apply Qle_shift_div_r; [exact Hb |]. lra.
Qed.

Lemma Qdiv_nonneg (a b : Q) : (0 <= a)%Q -> (0 < b)%Q -> (0 <= a / b)%Q.
Proof.
  intros Ha Hb. apply Qle_shift_div_l; [exact Hb |]. rewrite Qmult_0_l. exact Ha.
Qed.

(** ** Rounding to the nearest integer *)

Lemma round_half_even_comp (x y : Q) : x == y -> round_half_even x = round_half_even y.
Proof.
  intros Hxy. unfold round_half_even.
  rewrite (Qfloor_comp x y Hxy).
  assert (Hc : (x - inject_Z (Qfloor y) ?= 1 # 2)%Q = (y - inject_Z (Qfloor y) ?= 1 # 2)%Q).
  { apply Qcompare_comp; [rewrite Hxy |]; reflexivity. }
  rewrite Hc. reflexivity.
Qed.

Lemma round_half_even_nearest (x : Q) : nearest_even x (round_half_even x).
Proof.
  unfold round_half_even, nearest_even.
  pose proof (Qfloor_le x) as Hlo. pose proof (Qlt_floor x) as Hhi.
  rewrite inject_Z_plus in Hhi. change (inject_Z 1) with 1%Q in Hhi.
  set (n := Qfloor x) in *.
  destruct (Qcompare_spec (x - inject_Z n) (1 # 2)) as [Heq | Hlt | Hgt].
  - destruct (Z.even n) eqn:Hev.
    + repeat split; try lra; intros Hx; exact Hev.
    + rewrite inject_Z_plus. change (inject_Z 1) with 1%Q.
      repeat split; try lra.
      intros _. rewrite Z.even_add, Hev. reflexivity.
  - repeat split; lra.
  - rewrite inject_Z_plus. change (inject_Z 1) with 1%Q.
    repeat split; lra.
Qed.

Lemma inject_Z_lt_succ (a b : Z) : (inject_Z a < inject_Z b)%Q -> (inject_Z a + 1 <= inject_Z b)%Q.
Proof.
  intros Hab. rewrite <- Zlt_Qlt in Hab.
  change 1%Q with (inject_Z 1). rewrite <- inject_Z_plus, <- Zle_Qle. lia.
Qed.

Lemma nearest_even_mono (x y : Q) (m k : Z) :
  (x <= y)%Q -> nearest_even x m -> nearest_even y k -> m <= k.
Proof.
  intros Hxy (Hm1 & Hm2 & Hm3 & Hm4) (Hk1 & Hk2 & Hk3 & Hk4).
  destruct (Z_le_gt_dec m k) as [Hle | Hgt]; [exact Hle | exfalso].
  assert (Hq : (inject_Z k + 1 <= inject_Z m)%Q).
  { apply inject_Z_lt_succ. rewrite <- Zlt_Qlt. lia. }
  assert (Hmk : m = k + 1).
  { assert (Hq2 : (inject_Z m <= inject_Z k + 1)%Q) by lra.
    change 1%Q with (inject_Z 1) in Hq2. rewrite <- inject_Z_plus, <- Zle_Qle in Hq2. lia. }
  assert (Hxm : x == inject_Z m - (1 # 2)).
  { subst m. rewrite inject_Z_plus in *. change (inject_Z 1) with 1%Q in *. lra. }
  assert (Hyk : y == inject_Z k + (1 # 2)).
  { subst m. rewrite inject_Z_plus in *. change (inject_Z 1) with 1%Q in *. lra. }
  specialize (Hm3 Hxm). specialize (Hk4 Hyk).
  subst m. rewrite Z.even_add, Hk4 in Hm3. discriminate Hm3.
Qed.

Lemma nearest_even_unique (x : Q) (m k : Z) :
  nearest_even x m -> nearest_even x k -> m = k.
Proof.
  intros Hm Hk. apply Z.le_antisymm.
  - apply (nearest_even_mono x x); [apply Qle_refl | exact Hm | exact Hk].
  - apply (nearest_even_mono x x); [apply Qle_refl | exact Hk | exact Hm].
Qed.

Lemma round_half_even_mono (x y : Q) :
  (x <= y)%Q -> round_half_even x <= round_half_even y.
Proof.
  intros Hxy. apply (nearest_even_mono x y); [exact Hxy | |]; apply round_half_even_nearest.
Qed.

Lemma round_half_even_Z (n : Z) : round_half_even (inject_Z n) = n.
Proof.
  apply (nearest_even_unique (inject_Z n)); [apply round_half_even_nearest |].
  repeat split; lra.
Qed.

Lemma round_half_even_opp (x : Q) : round_half_even (- x) = - round_half_even x.
Proof.
  apply (nearest_even_unique (- x)); [apply round_half_even_nearest |].
  destruct (round_half_even_nearest x) as (H1 & H2 & H3 & H4).
  unfold nearest_even. rewrite inject_Z_opp.
  repeat split; try lra.
  - intros Hx. rewrite Z.even_opp. apply H4. lra.
  - intros Hx. rewrite Z.even_opp. apply H3. lra.
Qed.

(** ** Powers of two *)

Lemma pow2_pos (e : Z) : (0 < 2 ^ e)%Q.
Proof. apply Qpower_0_lt. reflexivity. Qed.

Lemma pow2_inject (k : Z) : 0 <= k -> inject_Z (2 ^ k) == (2 ^ k)%Q.
Proof. intros Hk. exact (Zpower_Qpower 2 k Hk). Qed.

Lemma pow2_le (a b : Z) : a <= b -> (2 ^ a <= 2 ^ b)%Q.
Proof. intros Hab. apply Qpower_le_compat_l; [exact Hab | discriminate]. Qed.

Lemma pow2_lt (a b : Z) : a < b -> (2 ^ a < 2 ^ b)%Q.
Proof. intros Hab. apply Qpower_lt_compat_l; [exact Hab | reflexivity]. Qed.

Lemma pow2_lt_inv (a b : Z) : (2 ^ a < 2 ^ b)%Q -> a < b.
Proof. intros Hab. apply (Qpower_lt_compat_l_inv 2); [exact Hab | reflexivity]. Qed.

Lemma pow2_plus (a b : Z) : (2 ^ (a + b) == 2 ^ a * 2 ^ b)%Q.
Proof. apply Qpower_plus. discriminate. Qed.

(** ** The binary logarithm *)

Lemma ilog2_comp (x y : Q) : x == y -> ilog2 x = ilog2 y.
Proof.
  intros Hxy. unfold ilog2.
  rewrite (Qleb_comp 1%Q 1%Q (Qeq_refl 1%Q) x y Hxy).
  rewrite (Qfloor_comp x y Hxy).
  rewrite (Qceiling_comp (/ x) (/ y)) by (rewrite Hxy; reflexivity).
  reflexivity.
Qed.

Lemma ilog2_spec (x : Q) :
  (0 < x)%Q -> (2 ^ ilog2 x <= x)%Q /\ (x < 2 ^ (ilog2 x + 1))%Q.
Proof.
  intros Hx. unfold ilog2. destruct (Qle_bool 1 x) eqn:Hb.
  - apply Qle_bool_iff in Hb.
    pose proof (Qfloor_resp_le 1%Q x Hb) as Hn. change (Qfloor 1) with 1 in Hn.
    pose proof (Qfloor_le x) as Hlo. pose proof (Qlt_floor x) as Hhi.
    set (n := Qfloor x) in *.
    destruct (Z.log2_spec n) as [Hk1 Hk2]; [lia |].
    pose proof (Z.log2_nonneg n) as Hk.
    set (k := Z.log2 n) in *. split.
    + rewrite <- pow2_inject by exact Hk.
      apply Qle_trans with (inject_Z n); [| exact Hlo]. rewrite <- Zle_Qle. exact Hk1.
    + rewrite <- pow2_inject by lia.
      apply Qlt_le_trans with (inject_Z (n + 1)); [exact Hhi |].
      rewrite <- Zle_Qle. unfold Z.succ in Hk2. lia.
  - assert (Hx1 : (x < 1)%Q).
    { apply Qnot_le_lt. intros Hle. apply Qle_bool_iff in Hle. congruence. }
    assert (Hxy : x * / x == 1) by (apply Qmult_inv_r; lra).
    assert (Hy : (0 < / x)%Q) by (apply Qinv_lt_0_compat; exact Hx).
    assert (Hy1 : (1 < / x)%Q).
    { apply Qlt_shift_inv_l; [exact Hx | lra]. }
    pose proof (Qle_ceiling (/ x)) as Hhi. pose proof (Qceiling_lt (/ x)) as Hlo.
    set (m := Qceiling (/ x)) in *.
    assert (Hm : 1 < m).
    { rewrite Zlt_Qlt. change (inject_Z 1) with 1%Q. lra. }
    destruct (Z.log2_up_spec m Hm) as [Hj1 Hj2].
    pose proof (Z.log2_up_pos m Hm) as Hj.
    set (j := Z.log2_up m) in *. unfold Z.pred in Hj1. split.
    + rewrite Qpower_opp. apply Qle_shift_inv_r; [apply pow2_pos |].
      rewrite <- Hxy. apply Qmult_le_l; [exact Hx |].
      apply Qle_trans with (inject_Z m); [exact Hhi |].
      rewrite <- pow2_inject by lia. rewrite <- Zle_Qle. exact Hj2.
    + replace (- j + 1) with (- (j + -1)) by lia.
      rewrite Qpower_opp. apply Qlt_shift_inv_l; [apply pow2_pos |].
      rewrite <- Hxy. apply Qmult_lt_l; [exact Hx |].
      apply Qle_lt_trans with (inject_Z (m - 1)); [| exact Hlo].
      rewrite <- pow2_inject by lia. rewrite <- Zle_Qle. lia.
Qed.

Lemma ilog2_unique (x : Q) (k : Z) :
  (2 ^ k <= x)%Q -> (x < 2 ^ (k + 1))%Q -> ilog2 x = k.
Proof.
  intros Hlo Hhi.
  assert (Hx : (0 < x)%Q) by (pose proof (pow2_pos k); lra).
  destruct (ilog2_spec x Hx) as [Hl Hh].
  assert (H1 : k < ilog2 x + 1) by (apply pow2_lt_inv; lra).
  assert (H2 : ilog2 x < k + 1) by (apply pow2_lt_inv; lra).
  lia.
Qed.

Lemma ilog2_mono (x y : Q) : (0 < x)%Q -> (x <= y)%Q -> ilog2 x <= ilog2 y.
Proof.
  intros Hx Hxy.
  destruct (ilog2_spec x Hx) as [Hl _].
  destruct (ilog2_spec y) as [_ Hh]; [lra |].
  assert (H1 : ilog2 x < ilog2 y + 1) by (apply pow2_lt_inv; lra).
  lia.
Qed.

(** ** Rounding to binary64 *)

Lemma pow2_div (a b : Z) : (2 ^ a / 2 ^ b == 2 ^ (a - b))%Q.
Proof. symmetry. apply Qpower_minus. discriminate. Qed.

Lemma div_pow2_le (x y : Q) (e : Z) : (x <= y)%Q -> (x / 2 ^ e <= y / 2 ^ e)%Q.
Proof.
  intros Hxy. unfold Qdiv. apply Qmult_le_compat_r; [exact Hxy |].
  apply Qinv_le_0_compat, Qlt_le_weak, pow2_pos.
Qed.

Lemma div_pow2_lt (x y : Q) (e : Z) : (x < y)%Q -> (x / 2 ^ e < y / 2 ^ e)%Q.
Proof.
  intros Hxy. unfold Qdiv. apply Qmult_lt_compat_r; [| exact Hxy].
  apply Qinv_lt_0_compat, pow2_pos.
Qed.

Lemma div_mul_pow2 (x : Q) (e : Z) : (x / 2 ^ e * 2 ^ e == x)%Q.
Proof.
  unfold Qdiv. rewrite <- Qmult_assoc, (Qmult_comm (/ 2 ^ e)), Qmult_inv_r, Qmult_1_r.
  - reflexivity.
  - pose proof (pow2_pos e). lra.
Qed.

Lemma mul_pow2_le (a b : Q) (e : Z) : (a <= b)%Q -> (a * 2 ^ e <= b * 2 ^ e)%Q.
Proof.
  intros Hab. apply Qmult_le_compat_r; [exact Hab |]. apply Qlt_le_weak, pow2_pos.
Qed.

Lemma ulp_exponent_comp (x y : Q) : x == y -> ulp_exponent x = ulp_exponent y.
Proof.
  intros Hxy. unfold ulp_exponent.
  rewrite (ilog2_comp (Qabs x) (Qabs y)) by (apply Qabs_wd; exact Hxy).
  reflexivity.
Qed.

Lemma ulp_exponent_opp (x : Q) : ulp_exponent (- x) = ulp_exponent x.
Proof.
  unfold ulp_exponent. rewrite (ilog2_comp (Qabs (- x)) (Qabs x)) by apply Qabs_opp.
  reflexivity.
Qed.

Lemma ulp_exponent_pos (x : Q) :
  (0 < x)%Q -> ulp_exponent x = Z.max (ilog2 x - 52) (-1074).
Proof.
  intros Hx. unfold ulp_exponent.
  rewrite (ilog2_comp (Qabs x) x) by (apply Qabs_pos; lra).
  reflexivity.
Qed.

Lemma round_unfold (x : Q) :
  round x =
  (inject_Z (round_half_even (x / 2 ^ ulp_exponent x)) * 2 ^ ulp_exponent x)%Q.
Proof. reflexivity. Qed.

Lemma round_proper (x y : Q) : x == y -> round x == round y.
Proof.
  intros Hxy. rewrite !round_unfold.
  rewrite (ulp_exponent_comp x y Hxy).
  rewrite (round_half_even_comp (x / 2 ^ ulp_exponent y) (y / 2 ^ ulp_exponent y))
    by (rewrite Hxy; reflexivity).
  reflexivity.
Qed.

Lemma round_opp (x : Q) : round (- x) == - round x.
Proof.
  rewrite !round_unfold, ulp_exponent_opp.
  rewrite (round_half_even_comp (- x / 2 ^ ulp_exponent x) (- (x / 2 ^ ulp_exponent x)))
    by (unfold Qdiv; ring).
  rewrite round_half_even_opp, inject_Z_opp. ring.
Qed.

Lemma round_zero : round 0 == 0.
Proof. reflexivity. Qed.

(** The scaled significand of a positive number is below 2^53. *)
Lemma significand_bound (x : Q) :
  (0 < x)%Q -> (x / 2 ^ ulp_exponent x < inject_Z (2 ^ 53))%Q.
Proof.
  intros Hx. destruct (ilog2_spec x Hx) as [_ Hhi].
  rewrite (ulp_exponent_pos x Hx). set (e := Z.max (ilog2 x - 52) (-1074)).
  assert (H53 : inject_Z (2 ^ 53) == (2 ^ (e + 53) / 2 ^ e)%Q).
  { rewrite pow2_div, pow2_inject by lia. replace (e + 53 - e) with 53 by lia. reflexivity. }
  rewrite H53. apply div_pow2_lt.
  apply Qlt_le_trans with (2 ^ (ilog2 x + 1))%Q; [exact Hhi |].
  apply pow2_le. lia.
Qed.

Lemma div_pow2_nonneg (x : Q) (e : Z) : (0 <= x)%Q -> (inject_Z 0 <= x / 2 ^ e)%Q.
Proof.
  intros Hx. apply Qle_shift_div_l; [apply pow2_pos |].
  change (inject_Z 0) with 0%Q. rewrite Qmult_0_l. exact Hx.
Qed.

Lemma round_nonneg (x : Q) : (0 <= x)%Q -> (0 <= round x)%Q.
Proof.
  intros Hx. rewrite round_unfold. set (e := ulp_exponent x).
  apply Qmult_le_0_compat; [| apply Qlt_le_weak, pow2_pos].
  change 0%Q with (inject_Z 0). rewrite <- Zle_Qle.
  rewrite <- (round_half_even_Z 0). apply round_half_even_mono.
  apply div_pow2_nonneg, Hx.
Qed.

Lemma round_nonpos (x : Q) : (x <= 0)%Q -> (round x <= 0)%Q.
Proof.
  intros Hx. pose proof (round_nonneg (- x)) as Hn.
  rewrite round_opp in Hn. lra.
Qed.

(** Monotonicity on positive numbers: within a binade the significands are
    ordered; across binades a power of two separates the results. *)
Lemma round_mono_pos (x y : Q) :
  (0 < x)%Q -> (x <= y)%Q -> (round x <= round y)%Q.
Proof.
  intros Hx Hxy. assert (Hy : (0 < y)%Q) by lra.
  pose proof (ilog2_mono x y Hx Hxy) as Hk.
  rewrite !round_unfold.
  pose proof (significand_bound x Hx) as Hsx.
  rewrite (ulp_exponent_pos x Hx) in *. rewrite (ulp_exponent_pos y Hy).
  set (ex := Z.max (ilog2 x - 52) (-1074)) in *.
  set (ey := Z.max (ilog2 y - 52) (-1074)).
  destruct (Z.eq_dec ex ey) as [Heq | Hne].
  - rewrite <- Heq. apply mul_pow2_le. rewrite <- Zle_Qle.
    apply round_half_even_mono, div_pow2_le, Hxy.
  - assert (Hlt : ex < ey) by lia.
    assert (Hey : ey = ilog2 y - 52) by lia.
    apply Qle_trans with (2 ^ (ex + 53))%Q.
    + rewrite (Z.add_comm ex 53), pow2_plus, <- (pow2_inject 53) by lia.
      apply mul_pow2_le. rewrite <- Zle_Qle.
      rewrite <- (round_half_even_Z (2 ^ 53)).
      apply round_half_even_mono, Qlt_le_weak, Hsx.
    + apply Qle_trans with (2 ^ (52 + ey))%Q; [apply pow2_le; lia |].
      rewrite pow2_plus, <- (pow2_inject 52) by lia.
      apply mul_pow2_le. rewrite <- Zle_Qle.
      rewrite <- (round_half_even_Z (2 ^ 52)).
      apply round_half_even_mono.
      assert (H52 : (inject_Z (2 ^ 52) == 2 ^ ilog2 y / 2 ^ ey)%Q).
      { rewrite pow2_div, pow2_inject by lia.
        replace (ilog2 y - ey) with 52 by lia. reflexivity. }
      rewrite H52. apply div_pow2_le. apply (ilog2_spec y Hy).
Qed.

Lemma round_mono (x y : Q) :
  (x <= y)%Q -> (round x <= round y)%Q.
Proof.
  intros Hxy. destruct (Qlt_le_dec 0 x) as [Hx | Hx].
  - apply round_mono_pos; assumption.
  - destruct (Qlt_le_dec y 0) as [Hy | Hy].
    + assert (Hn : (round (- y) <= round (- x))%Q).
      { apply round_mono_pos; lra. }
      rewrite !round_opp in Hn. lra.
    + apply Qle_trans with 0%Q; [apply round_nonpos | apply round_nonneg]; assumption.
Qed.

(** A significand below 2^53 at an exponent in range is a float. *)
Lemma round_fixed (m e : Z) :
  0 < m < 2 ^ 53 -> -1074 <= e ->
  round (inject_Z m * 2 ^ e) == (inject_Z m * 2 ^ e)%Q.
Proof.
  intros [Hm0 Hm] He.
  pose proof (pow2_pos e) as Hpe.
  assert (Hmq : (0 < inject_Z m)%Q).
  { change 0%Q with (inject_Z 0). rewrite <- Zlt_Qlt. exact Hm0. }
  assert (Hv : (0 < inject_Z m * 2 ^ e)%Q).
  { apply Qmult_lt_0_compat; assumption. }
  destruct (Z.log2_spec m Hm0) as [Hl1 Hl2].
  pose proof (Z.log2_nonneg m) as Hl0.
  assert (Hl : Z.log2 m < 53) by (apply Z.log2_lt_pow2; assumption).
  assert (Hk : ilog2 (inject_Z m * 2 ^ e) = Z.log2 m + e).
  { apply ilog2_unique.
    - rewrite pow2_plus. apply mul_pow2_le.
      rewrite <- pow2_inject by lia. rewrite <- Zle_Qle. exact Hl1.
    - replace (Z.log2 m + e + 1) with (Z.succ (Z.log2 m) + e) by lia.
      rewrite pow2_plus. apply Qmult_lt_compat_r; [exact Hpe |].
      rewrite <- pow2_inject by lia. rewrite <- Zlt_Qlt. exact Hl2. }
  rewrite round_unfold, (ulp_exponent_pos _ Hv), Hk.
  set (ev := Z.max (Z.log2 m + e - 52) (-1074)).
  assert (Hev : ev <= e) by lia.
  assert (Hd : (2 ^ e == inject_Z (2 ^ (e - ev)) * 2 ^ ev)%Q).
  { rewrite pow2_inject by lia. rewrite <- pow2_plus.
    replace (e - ev + ev) with e by lia. reflexivity. }
  rewrite (round_half_even_comp _ (inject_Z (m * 2 ^ (e - ev)))).
  - rewrite round_half_even_Z, inject_Z_mult, Hd. ring.
  - rewrite inject_Z_mult, Hd. field.
    pose proof (pow2_pos ev). lra.
Qed.

Lemma round_idem_pos (x : Q) :
  (0 < x)%Q -> round (round x) == round x.
Proof.
  intros Hx.
  pose proof (significand_bound x Hx) as Hs.
  rewrite (round_unfold x).
  set (e := ulp_exponent x) in *.
  assert (He : -1074 <= e) by (unfold e, ulp_exponent; lia).
  set (m := round_half_even (x / 2 ^ e)).
  assert (Hm0 : 0 <= m).
  { unfold m. rewrite <- (round_half_even_Z 0). apply round_half_even_mono.
    apply div_pow2_nonneg. lra. }
  assert (Hm1 : m <= 2 ^ 53).
  { unfold m. rewrite <- (round_half_even_Z (2 ^ 53)).
    apply round_half_even_mono, Qlt_le_weak, Hs. }
  destruct (Z.eq_dec m 0) as [-> | Hnz].
  - rewrite (round_proper (inject_Z 0 * 2 ^ e) 0) by ring.
    rewrite round_zero. ring.
  - destruct (Z.eq_dec m (2 ^ 53)) as [-> | Hne].
    + assert (Hs2 : (inject_Z (2 ^ 53) * 2 ^ e == inject_Z (2 ^ 52) * 2 ^ (e + 1))%Q).
      { rewrite (Z.add_comm e 1), pow2_plus.
        change (2 ^ 53) with (2 ^ 52 * 2). rewrite inject_Z_mult.
        change (2 ^ 1)%Q with (inject_Z 2). ring. }
      rewrite (round_proper _ _ Hs2), Hs2.
      apply round_fixed; lia.
    + apply round_fixed; lia.
Qed.

Lemma round_idem (x : Q) : round (round x) == round x.
Proof.
  destruct (Qlt_le_dec 0 x) as [Hx | Hx]; [apply round_idem_pos, Hx |].
  destruct (Qlt_le_dec x 0) as [Hn | Hn].
  - assert (Hp : (0 < - x)%Q) by lra.
    pose proof (round_idem_pos (- x) Hp) as Hi.
    rewrite (round_proper (round (- x)) (- round x)) in Hi
      by apply round_opp.
    rewrite !round_opp in Hi. lra.
  - assert (H0 : x == 0) by lra.
    assert (Hr : round x == 0).
    { rewrite (round_proper x 0 H0). apply round_zero. }
    rewrite (round_proper (round x) 0 Hr), round_zero, Hr.
    reflexivity.
Qed.

Lemma round_one : round 1 == 1.
Proof. vm_compute. reflexivity. Qed.

Lemma round_millionth : (0 < round (1 # 1000000))%Q.
Proof. vm_compute. reflexivity. Qed.

Lemma round_minus_one : round (- (1)) == - (1).
Proof. rewrite (round_opp 1), round_one. reflexivity. Qed.

(** Rounding keeps a number of [-1, 1] in [-1, 1]. *)
Lemma round_in_unit (x : Q) :
  (- 1 <= x)%Q -> (x <= 1)%Q -> (- 1 <= round x)%Q /\ (round x <= 1)%Q.
Proof.
  intros Hlo Hhi. split.
  - rewrite <- round_minus_one. apply round_mono, Hlo.
  - rewrite <- round_one. apply round_mono, Hhi.
Qed.

(** The divisor [w + 0.000001] of the two scores: it is positive, and at
    least the float of [w]. *)
Lemma shifted_divisor (w : Z) :
  0 <= w ->
  exists b, py_add (PyInt w) epsilon = PyFloat b
            /\ (0 < b)%Q /\ (round (inject_Z w) <= b)%Q.
Proof.
  intros Hw. eexists. split; [reflexivity |].
  cbn [as_float epsilon float_literal].
  pose proof round_millionth as He.
  pose proof (round_nonneg _ (inject_Z_nonneg _ Hw)) as Hw'.
  split.
  - apply Qlt_le_trans with (round (1 # 1000000)); [exact He |].
    rewrite <- (round_idem (1 # 1000000)) at 1.
    apply round_mono. lra.
  - rewrite <- (round_idem (inject_Z w)) at 1.
    apply round_mono. lra.
Qed.

Lemma polarity_score_of_spec (p n : Z) :
  0 <= p -> 0 <= n ->
  exists q, polarity_score_of p n = Ok (PyFloat q)
            /\ (- 1 <= q)%Q /\ (q <= 1)%Q.
Proof.
  intros Hp Hn. unfold polarity_score_of.
  destruct (shifted_divisor (p + n)) as (b & -> & Hb & Hwb); [lia |].
  cbn [py_truediv as_float]. rewrite (Qeq_bool_pos _ Hb).
  eexists. split; [reflexivity |]. cbn [as_float].
  apply round_in_unit; apply Qdiv_in_unit; try exact Hb.
  - apply Qle_trans with (- round (inject_Z (p + n)))%Q; [lra |].
    rewrite <- round_opp. apply round_mono.
    rewrite <- inject_Z_opp, <- Zle_Qle. lia.
  - apply Qle_trans with (round (inject_Z (p + n))); [| exact Hwb].
    apply round_mono. rewrite <- Zle_Qle. lia.
  - apply Qle_trans with (- round (inject_Z (p + n)))%Q; [lra |].
    rewrite <- round_opp. apply round_mono.
    rewrite <- inject_Z_opp, <- Zle_Qle. lia.
  - apply Qle_trans with (round (inject_Z (p + n))); [| exact Hwb].
    apply round_mono. rewrite <- Zle_Qle. lia.
Qed.

Lemma subjectivity_score_of_ok (p n w : Z) :
  0 <= w ->
  exists q, subjectivity_score_of p n w = Ok (PyFloat q).
Proof.
  intros Hw. unfold subjectivity_score_of.
  destruct (shifted_divisor w Hw) as (b & -> & Hb & _).
  cbn [py_truediv as_float]. rewrite (Qeq_bool_pos _ Hb).
  eexists. reflexivity.
Qed.

(** [a / b if b else 0] never divides by zero. *)
Lemma ratio_or_zero_spec (a b : Z) :
  exists x, ratio_or_zero a b = Ok x
            /\ (b = 0 -> x = PyInt 0)
            /\ (b <> 0 -> x = PyFloat (round (inject_Z a / inject_Z b))).
Proof.
  unfold ratio_or_zero, truthy, py_truediv.
  destruct (Z.eqb_spec b 0) as [-> | Hb]; cbn [negb].
  - exists (PyInt 0). repeat split; [lia].
  - eexists. repeat split; [congruence].
Qed.

(** ** The metrics engine *)

Section AnalysisFacts.

Variable sent_tokenize : string -> list string.
Variable word_tokenize : string -> list string.

(** [analyze_text] raises nowhere; its result is the list of the thirteen
    values below. *)
Lemma analyze_text_spec (text : string) (sw pw nw : gset string) :
  let cw := cleaned_words_of (word_tokenize text) sw in
  let complex := filter (fun w => Is_true (is_complex w)) cw in
  exists pol subj avg pct spw awl,
    analyze_text sent_tokenize word_tokenize text sw pw nw =
      Ok [ PyInt (lexicon_score cw pw); PyInt (lexicon_score cw nw); pol; subj;
           avg; pct; py_mul (float_literal (4 # 10)) (py_add avg pct); avg;
           PyInt (len complex); PyInt (len cw); spw;
           PyInt (count_personal_pronouns text); awl ]
    /\ polarity_score_of (lexicon_score cw pw) (lexicon_score cw nw) = Ok pol
    /\ subjectivity_score_of (lexicon_score cw pw) (lexicon_score cw nw) (len cw) = Ok subj
    /\ ratio_or_zero (len cw) (len (sent_tokenize text)) = Ok avg
    /\ ratio_or_zero (len complex) (len cw) = Ok pct
    /\ ratio_or_zero (py_sum (map count_syllables cw)) (len cw) = Ok spw
    /\ ratio_or_zero (py_sum (map str_len cw)) (len cw) = Ok awl.
Proof.
  intros cw complex.
  destruct (polarity_score_of_spec (lexicon_score cw pw) (lexicon_score cw nw))
    as (pol & Hpol & _); [apply lexicon_score_bounds .. |].
  destruct (subjectivity_score_of_ok
              (lexicon_score cw pw) (lexicon_score cw nw) (len cw))
    as (subj & Hsubj); [apply len_nonneg |].
  destruct (ratio_or_zero_spec (len cw) (len (sent_tokenize text))) as (avg & Havg & _).
  destruct (ratio_or_zero_spec (len complex) (len cw)) as (pct & Hpct & _).
  destruct (ratio_or_zero_spec (py_sum (map count_syllables cw)) (len cw)) as (spw & Hspw & _).
  destruct (ratio_or_zero_spec (py_sum (map str_len cw)) (len cw)) as (awl & Hawl & _).
  exists (PyFloat pol), (PyFloat subj), avg, pct, spw, awl.
  unfold analyze_text. fold cw. fold complex.
  rewrite Hpol, Hsubj, Havg, Hpct, Hspw, Hawl.
  repeat split; reflexivity.
Qed.

Lemma analyze_text_total (text : string) (sw pw nw : gset string) :
  exists metrics,
    analyze_text sent_tokenize word_tokenize text sw pw nw = Ok metrics
    /\ length metrics = 13%nat.
Proof.
  destruct (analyze_text_spec text sw pw nw)
    as (pol & subj & avg & pct & spw & awl & Hv & _).
  eexists. split; [exact Hv | reflexivity].
Qed.

Lemma ratio_zero_numerator (b : Z) (x : pynum) :
  ratio_or_zero 0 b = Ok x -> (to_Q x == 0)%Q.
Proof.
  intros Hx. destruct (ratio_or_zero_spec 0 b) as (y & Hy & Hz & Hnz).
  rewrite Hy in Hx. injection Hx as <-.
  destruct (Z.eq_dec b 0) as [Hb | Hb].
  - rewrite (Hz Hb). reflexivity.
  - rewrite (Hnz Hb). cbn [to_Q].
    rewrite (round_proper _ 0); [apply round_zero |].
    unfold Qdiv. apply Qmult_0_l.
Qed.

Lemma ratio_zero_denominator (a : Z) (x : pynum) :
  ratio_or_zero a 0 = Ok x -> x = PyInt 0.
Proof. intros Hx. injection Hx as <-. reflexivity. Qed.

(** A ratio of a part to the whole lies in [0, 1]. *)
Lemma ratio_of_part (a b : Z) (x : pynum) :
  0 <= a <= b -> ratio_or_zero a b = Ok x -> (0 <= to_Q x)%Q /\ (to_Q x <= 1)%Q.
Proof.
  intros Hab Hx. destruct (ratio_or_zero_spec a b) as (y & Hy & Hz & Hnz).
  rewrite Hy in Hx. injection Hx as <-.
  destruct (Z.eq_dec b 0) as [Hb | Hb].
  - rewrite (Hz Hb). cbn. split; discriminate.
  - rewrite (Hnz Hb). cbn [to_Q].
    assert (Hpos : (0 < inject_Z b)%Q) by (apply inject_Z_pos; lia).
    split.
    + apply round_nonneg, Qdiv_nonneg; [| exact Hpos].
      apply inject_Z_nonneg. lia.
    + apply round_in_unit.
      * apply Qle_trans with 0%Q; [discriminate |].
        apply Qdiv_nonneg; [| exact Hpos]. apply inject_Z_nonneg. lia.
      * apply Qle_shift_div_r; [exact Hpos |]. rewrite Qmult_1_l.
        rewrite <- Zle_Qle. lia.
Qed.

(** C3: when [cleaned_words] is empty (word count 0), [analyze_text]
    returns normally, whatever the sentence count, and the four averaged
    metrics (average sentence length, fraction of complex words, syllables
    per word, average word length) are all 0. *)
Theorem averages_zero_without_words (text : string) (sw pw nw : gset string) :
  len (cleaned_words_of (word_tokenize text) sw) = 0 ->
  exists v avg pct spw awl,
    analyze_text sent_tokenize word_tokenize text sw pw nw = Ok v
    /\ v !! 4%nat = Some avg /\ v !! 5%nat = Some pct
    /\ v !! 10%nat = Some spw /\ v !! 12%nat = Some awl
    /\ (to_Q avg == 0)%Q /\ (to_Q pct == 0)%Q
    /\ (to_Q spw == 0)%Q /\ (to_Q awl == 0)%Q.
Proof.
  intros Hwc.
  destruct (analyze_text_spec text sw pw nw)
    as (pol & subj & avg & pct & spw & awl & Hv & _ & _ & Havg & Hpct & Hspw & Hawl).
  rewrite Hwc in Havg, Hpct, Hspw, Hawl.
  apply ratio_zero_numerator in Havg.
  apply ratio_zero_denominator in Hpct, Hspw, Hawl. subst pct spw awl.
  eexists. exists avg, (PyInt 0), (PyInt 0), (PyInt 0).
  split; [exact Hv |].
  repeat split; first [reflexivity | exact Havg].
Qed.

(** C4: for non-negative positive and negative scores the polarity score
    (p - n) / ((p + n) + 0.000001) is computed without error and lies in
    [-1, 1]. *)
Theorem polarity_score_in_unit_interval (positive_score negative_score : Z) :
  0 <= positive_score -> 0 <= negative_score ->
  exists x, polarity_score_of positive_score negative_score = Ok x
            /\ (- 1 <= to_Q x)%Q /\ (to_Q x <= 1)%Q.
Proof.
  intros Hp Hn.
  destruct (polarity_score_of_spec positive_score negative_score Hp Hn)
    as (q & Hq & Hb).
  exists (PyFloat q). split; [exact Hq | exact Hb].
Qed.

(** C8: the 8th element of the vector returned by [analyze_text] is its
    5th element, the average sentence length. *)
Theorem eighth_field_repeats_fifth (text : string) (sw pw nw : gset string) :
  exists v avg,
    analyze_text sent_tokenize word_tokenize text sw pw nw = Ok v
    /\ length v = 13%nat
    /\ v !! 4%nat = Some avg
    /\ v !! 7%nat = Some avg
    /\ ratio_or_zero (len (cleaned_words_of (word_tokenize text) sw))
                     (len (sent_tokenize text)) = Ok avg.
Proof.
  destruct (analyze_text_spec text sw pw nw)
    as (pol & subj & avg & pct & spw & awl & Hv & _ & _ & Havg & _).
  eexists. exists avg. split; [exact Hv |].
  repeat split; first [reflexivity | exact Havg].
Qed.

(** C10: in the vector returned by [analyze_text] the positive score, the
    negative score and the complex word count are each between 0 and the
    word count, and the fraction of complex words lies in [0, 1]. *)
Theorem counts_bounded_by_word_count (text : string) (sw pw nw : gset string) :
  exists v p n c w pct,
    analyze_text sent_tokenize word_tokenize text sw pw nw = Ok v
    /\ v !! 0%nat = Some (PyInt p) /\ v !! 1%nat = Some (PyInt n)
    /\ v !! 8%nat = Some (PyInt c) /\ v !! 9%nat = Some (PyInt w)
    /\ v !! 5%nat = Some pct
    /\ w = len (cleaned_words_of (word_tokenize text) sw)
    /\ 0 <= p <= w /\ 0 <= n <= w /\ 0 <= c <= w
    /\ (0 <= to_Q pct)%Q /\ (to_Q pct <= 1)%Q.
Proof.
  destruct (analyze_text_spec text sw pw nw)
    as (pol & subj & avg & pct & spw & awl & Hv & _ & _ & _ & Hpct & _).
  set (cw := cleaned_words_of (word_tokenize text) sw) in *.
  set (complex := filter (fun w => Is_true (is_complex w)) cw) in *.
  assert (Hc : 0 <= len complex <= len cw).
  { split; [apply len_nonneg | apply len_filter_le]. }
  eexists. exists (lexicon_score cw pw), (lexicon_score cw nw), (len complex), (len cw), pct.
  split; [exact Hv |].
  do 6 (split; [reflexivity |]).
  do 2 (split; [apply lexicon_score_bounds |]).
  split; [exact Hc |].
  exact (ratio_of_part _ _ _ Hc Hpct).
Qed.

End AnalysisFacts.

Lemma polarity_score_in_unit_interval_witness :
  0 <= 2 /\ 0 <= 0
  /\ exists x, polarity_score_of 2 0 = Ok x
               /\ (- 1 <= to_Q x)%Q /\ (to_Q x <= 1)%Q.
Proof.
  split; [lia |]. split; [lia |].
  apply (polarity_score_in_unit_interval 2 0); lia.
Defined.

Lemma averages_zero_without_words_witness :
  len (cleaned_words_of (sample_words "The the.") {["the"]}) = 0
  /\ exists v avg pct spw awl,
       analyze_text sample_sentences sample_words
         "The the." {["the"]} {["love"]} ∅ = Ok v
       /\ v !! 4%nat = Some avg /\ v !! 5%nat = Some pct
       /\ v !! 10%nat = Some spw /\ v !! 12%nat = Some awl
       /\ (to_Q avg == 0)%Q /\ (to_Q pct == 0)%Q
       /\ (to_Q spw == 0)%Q /\ (to_Q awl == 0)%Q.
Proof.
  split; [vm_compute; reflexivity |].
  apply (averages_zero_without_words sample_sentences sample_words).
  vm_compute; reflexivity.
Defined.

(** ** Personal pronouns *)

Lemma isword_lower (x : ascii) :
  Py.isword_char (Py.lower_char x) = Py.isword_char x.
Proof. destruct x as [[] [] [] [] [] [] [] []]; reflexivity. Qed.

(** Under [re.I] a literal that is a word character matches word
    characters only. *)
Lemma lit_matches_word (c x : ascii) :
  Py.isword_char c = true -> lit_matches true c x = true -> Py.isword_char x = true.
Proof.
  unfold lit_matches. intros Hc Hm. apply Ascii.eqb_eq in Hm.
  rewrite <- isword_lower, Hm, isword_lower. exact Hc.
Qed.

Lemma append_cons (c : ascii) (a b : string) :
  (String c a ++ b)%string = String c (a ++ b).
Proof. reflexivity. Qed.

Lemma append_empty_r (s : string) : (s ++ "")%string = s.
Proof.
  induction s as [| c s IH]; [reflexivity |].
  rewrite append_cons, IH. reflexivity.
Qed.

Lemma append_assoc (a b c : string) : ((a ++ b) ++ c)%string = (a ++ (b ++ c))%string.
Proof.
  induction a as [| x a IH]; [reflexivity |].
  rewrite !append_cons, IH. reflexivity.
Qed.

Lemma length_append (a b : string) :
  String.length (a ++ b) = (String.length a + String.length b)%nat.
Proof.
  induction a as [| x a IH]; [reflexivity |].
  rewrite append_cons. cbn [String.length]. rewrite IH. reflexivity.
Qed.

Lemma take_drop_word (s : string) : (take_word s ++ drop_word s)%string = s.
Proof.
  induction s as [| c s IH]; [reflexivity |].
  cbn [take_word drop_word]. destruct (Py.isword_char c); [| reflexivity].
  rewrite append_cons, IH. reflexivity.
Qed.

Lemma drop_word_head (s : string) : is_word (head_char (drop_word s)) = false.
Proof.
  induction s as [| c s IH]; [reflexivity |].
  cbn [drop_word]. destruct (Py.isword_char c) eqn:Hc; [exact IH |].
  cbn. exact Hc.
Qed.

Lemma take_word_nonword (s : string) :
  is_word (head_char s) = false -> take_word s = "" /\ drop_word s = s.
Proof.
  destruct s as [| c s]; [split; reflexivity |].
  cbn. intros ->. split; reflexivity.
Qed.

(** A literal word followed by [\b] matches exactly when the text starts
    with that word, in any letter case, as a whole word. *)
Lemma rmatch_word (p : string) :
  forall (prev : option ascii) (s : string),
    Py.forallb_str Py.isword_char p = true ->
    (p = "" -> is_word prev = true) ->
    rmatch true (re_str p) prev s closing_boundary =
    if String.eqb (Py.lower (take_word s)) (Py.lower p) then Some (drop_word s) else None.
Proof.
  induction p as [| c p IH]; intros prev s Hp Hprev.
  - cbn [re_str rmatch Py.lower]. unfold closing_boundary, at_boundary.
    rewrite Hprev by reflexivity.
    destruct s as [| x s]; [reflexivity |].
    cbn [head_char is_word take_word drop_word].
    destruct (Py.isword_char x); reflexivity.
  - cbn [Py.forallb_str] in Hp. apply andb_true_iff in Hp as [Hc Hp].
    cbn [re_str rmatch].
    destruct s as [| x s]; [reflexivity |].
    cbn [take_word drop_word].
    destruct (lit_matches true c x) eqn:Hm.
    + pose proof (lit_matches_word c x Hc Hm) as Hx.
      rewrite Hx, (IH (Some x) s Hp (fun _ => Hx)).
      cbn [Py.lower String.eqb]. unfold lit_matches in Hm. rewrite Hm. reflexivity.
    + destruct (Py.isword_char x); [| reflexivity].
      cbn [Py.lower String.eqb]. unfold lit_matches in Hm. rewrite Hm. reflexivity.
Qed.

(** An ordered choice between literal words, followed by [\b]. *)
Lemma rmatch_words (ps : list string) (prev : option ascii) (s : string) :
  ps <> [] ->
  Forall (fun p => p <> "" /\ Py.forallb_str Py.isword_char p = true) ps ->
  rmatch true (re_alt (map re_str ps)) prev s closing_boundary =
  if existsb (String.eqb (Py.lower (take_word s))) (map Py.lower ps)
  then Some (drop_word s) else None.
Proof.
  intros Hne Hall. induction Hall as [| p ps [Hp Hw] Hall IH]; [contradiction |].
  destruct ps as [| p2 ps].
  - cbn [map re_alt existsb]. rewrite rmatch_word by (trivial || contradiction).
    rewrite orb_false_r. reflexivity.
  - change (re_alt (map re_str (p :: p2 :: ps)))
      with (Alt (re_str p) (re_alt (map re_str (p2 :: ps)))).
    cbn [rmatch]. rewrite rmatch_word by (trivial || contradiction).
    rewrite IH by discriminate.
    change (map Py.lower (p :: p2 :: ps)) with (Py.lower p :: map Py.lower (p2 :: ps)).
    cbn [existsb].
    destruct (String.eqb (Py.lower (take_word s)) (Py.lower p)); reflexivity.
Qed.

(** One attempt of the pronoun pattern: it succeeds exactly at the start
    of a whole word that is a pronoun, and consumes that word. *)
Lemma match_here_pronoun (prev : option ascii) (s : string) :
  match_here true pronoun_pattern prev s =
  if at_boundary prev s && is_pronoun (take_word s) then Some (drop_word s) else None.
Proof.
  unfold match_here, pronoun_pattern. cbn [rmatch].
  destruct (at_boundary prev s); [| reflexivity].
  change (fun (p : option ascii) (s' : string) =>
            if at_boundary p s' then Some s' else None) with closing_boundary.
  rewrite rmatch_words.
  - reflexivity.
  - discriminate.
  - repeat constructor; discriminate.
Qed.

Lemma word_runs_from_split (s cur : string) :
  word_runs_from cur s = word_runs_from (cur ++ take_word s) (drop_word s).
Proof.
  revert cur. induction s as [| c s IH]; intros cur.
  - cbn. rewrite append_empty_r. reflexivity.
  - cbn [take_word drop_word]. destruct (Py.isword_char c) eqn:Hc.
    + cbn [word_runs_from]. rewrite Hc, IH, append_assoc. reflexivity.
    + rewrite append_empty_r. reflexivity.
Qed.

Lemma word_runs_from_nonword (s cur : string) :
  is_word (head_char s) = false ->
  word_runs_from cur s = flush cur ++ word_runs_from "" s.
Proof.
  destruct s as [| c s]; cbn.
  - intros _. rewrite app_nil_r. reflexivity.
  - intros ->. reflexivity.
Qed.

(** The words of a text: its first word, if it starts with one, then the
    words of the rest. *)
Lemma word_runs_unfold (s : string) :
  word_runs_from "" s = flush (take_word s) ++ word_runs_from "" (drop_word s).
Proof.
  rewrite (word_runs_from_split s ""). cbn [String.append].
  apply word_runs_from_nonword, drop_word_head.
Qed.

Lemma count_pronouns_word (w : string) (ws : list string) :
  count_pronouns (flush w ++ ws) =
  ((if is_pronoun w then 1 else 0) + count_pronouns ws)%nat.
Proof.
  unfold count_pronouns. destruct w as [| c w].
  - reflexivity.
  - cbn [flush app]. destruct (is_pronoun (String c w)) eqn:Hp.
    + rewrite filter_cons_True by (rewrite Hp; exact I). reflexivity.
    + rewrite filter_cons_False by (rewrite Hp; exact id). reflexivity.
Qed.

Lemma length_take_word (s : string) :
  (String.length s - String.length (drop_word s))%nat = String.length (take_word s).
Proof.
  rewrite <- (take_drop_word s) at 1. rewrite length_append. lia.
Qed.

(** The scan finds the whole-word pronouns and nothing else.  While a
    match is being stepped over ([skip] not 0), and whenever the previous
    character is a word character, the scan is inside a word whose
    remainder holds no match. *)
Lemma findall_pronouns (s : string) :
  forall (prev : option ascii) (skip : nat),
    (skip <> 0%nat ->
     is_word prev = true /\ (skip <= String.length (take_word s))%nat) ->
    length (findall_from true pronoun_pattern prev s skip) =
    count_pronouns (word_runs_from "" (if is_word prev then drop_word s else s)).
Proof.
  induction s as [| c s IH]; intros prev skip Hskip.
  - cbn [findall_from]. rewrite match_here_pronoun, andb_false_r.
    destruct skip, (is_word prev); reflexivity.
  - cbn [findall_from]. destruct skip as [| n].
    + rewrite match_here_pronoun.
      destruct (at_boundary prev (String c s) && is_pronoun (take_word (String c s)))
        eqn:Hm.
      * apply andb_true_iff in Hm as [Hb Hp].
        unfold at_boundary in Hb. cbn [head_char is_word take_word] in Hb, Hp.
        destruct (Py.isword_char c) eqn:Hc; [| discriminate Hp].
        destruct (is_word prev); [discriminate Hb |].
        cbn [length]. rewrite length_take_word. cbn [take_word]. rewrite Hc.
        cbn [String.length Nat.sub]. rewrite Nat.sub_0_r.
        rewrite IH by (intros _; cbn; rewrite Hc; split; [reflexivity | lia]).
        cbn [is_word]. rewrite Hc.
        rewrite (word_runs_unfold (String c s)), count_pronouns_word.
        cbn [take_word drop_word]. rewrite Hc, Hp. reflexivity.
      * rewrite IH by (intros H; contradiction).
        cbn [is_word]. unfold at_boundary in Hm. cbn [head_char is_word] in Hm.
        destruct (is_word prev), (Py.isword_char c) eqn:Hc.
        -- cbn [drop_word]. rewrite Hc. reflexivity.
        -- cbn [drop_word word_runs_from]. rewrite Hc. cbn [word_runs_from]. rewrite Hc.
           reflexivity.
        -- cbn [xorb andb] in Hm.
           rewrite (word_runs_unfold (String c s)), count_pronouns_word, Hm.
           cbn [drop_word]. rewrite Hc. reflexivity.
        -- cbn [word_runs_from]. rewrite Hc. reflexivity.
    + destruct Hskip as [Hprev Hlen]; [discriminate |].
      cbn [take_word] in Hlen. destruct (Py.isword_char c) eqn:Hc; [| cbn in Hlen; lia].
      cbn [String.length] in Hlen.
      rewrite IH by (intros _; cbn; rewrite Hc; split; [reflexivity | lia]).
      rewrite Hprev. cbn [is_word drop_word]. rewrite Hc. reflexivity.
Qed.

(** C9: [count_personal_pronouns] is the number of whole words of the text
    that are one of I, we, my, ours, us in any letter case, where a word is
    a maximal run of word characters; it is computed on the text handed to
    [analyze_text], whatever the stop words.  So "us" inside "bus" counts
    for nothing, and each standalone "us" counts once in every letter
    case. *)
Theorem personal_pronouns_whole_words :
  (forall text : string, count_personal_pronouns text = whole_word_pronouns text)
  /\ (forall sent_tokenize word_tokenize text sw pw nw,
        exists v,
          analyze_text sent_tokenize word_tokenize text sw pw nw = Ok v
          /\ v !! 11%nat = Some (PyInt (whole_word_pronouns text)))
  /\ count_personal_pronouns "bus" = 0
  /\ count_personal_pronouns "The bus took us" = 1
  /\ count_personal_pronouns "us US Us uS" = 4.
Proof.
  assert (Heq : forall text, count_personal_pronouns text = whole_word_pronouns text).
  { intros text. unfold count_personal_pronouns, whole_word_pronouns, findall, word_runs.
    rewrite (findall_pronouns text None 0%nat) by (intros Hskip; contradiction).
    reflexivity. }
  split; [exact Heq |]. split; [| repeat split; vm_compute; reflexivity].
  intros sent_tokenize word_tokenize text sw pw nw.
  destruct (analyze_text_spec sent_tokenize word_tokenize text sw pw nw)
    as (pol & subj & avg & pct & spw & awl & Hv & _).
  eexists. split; [exact Hv |]. cbn. rewrite Heq. reflexivity.
Qed.

(** ** Article extraction *)

Section ExtractionFacts.

Variable session_get : string -> result response.
Variable file_write : string -> string -> write_outcome.

Lemma extract_row_unfold (w : world) (r : row) :
  extract_row session_get file_write w r =
  {| files := match row_write session_get file_write r with
              | Some kv => <[kv.1 := kv.2]> (files w)
              | None => files w
              end;
     stdout := stdout w ++ [row_line session_get file_write r] |}.
Proof.
  unfold extract_row, row_write, row_line.
  destruct (fetch_soup session_get (URL r)) as [page | e]; [| reflexivity].
  fold (article_path (URL_ID r)). fold (page_content page).
  destruct (file_write (article_path (URL_ID r)) (page_content page)); reflexivity.
Qed.

Lemma extract_row_saved (w : world) (r : row) (page : soup) :
  fetch_soup session_get (URL r) = Ok page ->
  file_write (article_path (URL_ID r)) (page_content page) = Written ->
  files (extract_row session_get file_write w r)
    = <[article_path (URL_ID r) := page_content page]> (files w)
  /\ stdout (extract_row session_get file_write w r)
    = stdout w ++ [Saved (article_file (URL_ID r))].
Proof.
  intros Hpage Hwrite. rewrite extract_row_unfold. unfold row_write, row_line.
  rewrite Hpage, Hwrite. split; reflexivity.
Qed.

Lemma extract_row_failed (w : world) (r : row) (e : exn) :
  fetch_soup session_get (URL r) = Raise e ->
  files (extract_row session_get file_write w r) = files w
  /\ stdout (extract_row session_get file_write w r) = stdout w ++ [Failed (URL_ID r) e].
Proof.
  intros Hpage. rewrite extract_row_unfold. unfold row_write, row_line.
  rewrite Hpage. split; reflexivity.
Qed.

(** Files are never removed and printed lines are never taken back. *)
Lemma extract_row_keeps (w : world) (r : row) (path : string) (l : line) :
  (is_Some (files w !! path)
   -> is_Some (files (extract_row session_get file_write w r) !! path))
  /\ (l ∈ stdout w -> l ∈ stdout (extract_row session_get file_write w r)).
Proof.
  rewrite extract_row_unfold. cbn [files stdout]. split.
  - intros Hsome. destruct (row_write session_get file_write r) as [[k v] |]; [| exact Hsome].
    cbn [fst snd]. rewrite lookup_insert. case_decide; [eauto | exact Hsome].
  - intros Hin. apply elem_of_app. left. exact Hin.
Qed.

Lemma extract_rows_keep (df : list row) (w : world) (path : string) (l : line) :
  (is_Some (files w !! path)
   -> is_Some (files (fold_left (extract_row session_get file_write) df w) !! path))
  /\ (l ∈ stdout w -> l ∈ stdout (fold_left (extract_row session_get file_write) df w)).
Proof.
  revert w. induction df as [| r df IH]; intros w; cbn [fold_left].
  - split; trivial.
  - destruct (IH (extract_row session_get file_write w r)) as [IHf IHl].
    destruct (extract_row_keeps w r path l) as [Hf Hl].
    split; auto.
Qed.

Lemma extract_articles_app (before after : list row) (r : row) (w : world) :
  extract_articles session_get file_write (before ++ r :: after) w =
  fold_left (extract_row session_get file_write) after
    (extract_row session_get file_write (extract_articles session_get file_write before w) r).
Proof. unfold extract_articles. rewrite fold_left_app. reflexivity. Qed.

(** C5 (amended): a 2xx response whose page has neither a level-1 heading
    nor the article-body container is not a failure of the fetch: the
    program goes on to write the article file of that id, with an empty
    title, a blank line and an empty body.  When the file system takes the
    write, the "Saved" line is printed, and the file and the line are still
    there when the batch ends.  The row is logged as failed only when
    opening or writing the file raises, with the exception of the file
    system and not for want of content: then no file is touched if the
    file could not be opened, and the file holds what the failed write left
    if it could.  In every case the loop goes on with the remaining
    rows. *)
Theorem empty_page_is_saved (before after : list row) (r : row) (resp : response)
    (page : soup) (w : world) :
  session_get (URL r) = Ok resp ->
  200 <= status_code resp < 300 ->
  parsed resp = Ok page ->
  find_h1 page = None ->
  find_content_div page = None ->
  let path := article_path (URL_ID r) in
  let w1 := extract_articles session_get file_write before w in
  let w2 := extract_row session_get file_write w1 r in
  let w3 := extract_articles session_get file_write (before ++ r :: after) w in
  w3 = fold_left (extract_row session_get file_write) after w2
  /\ match file_write path (Py.newline ++ Py.newline) with
     | Written =>
         files w2 = <[path := (Py.newline ++ Py.newline)%string]> (files w1)
         /\ stdout w2 = stdout w1 ++ [Saved (article_file (URL_ID r))]
         /\ is_Some (files w3 !! path)
         /\ Saved (article_file (URL_ID r)) ∈ stdout w3
     | OpenRaises e =>
         files w2 = files w1
         /\ stdout w2 = stdout w1 ++ [Failed (URL_ID r) e]
     | WriteRaises e remains =>
         files w2 = <[path := remains]> (files w1)
         /\ stdout w2 = stdout w1 ++ [Failed (URL_ID r) e]
     end.
Proof.
  intros Hget Hstatus Hparsed Hh1 Hdiv path w1 w2 w3.
  assert (Hpage : fetch_soup session_get (URL r) = Ok page).
  { unfold fetch_soup. rewrite Hget. unfold mbind, result_bind, raise_for_status.
    replace (400 <=? status_code resp)%Z with false by lia.
    exact Hparsed. }
  assert (Hcontent : page_content page = (Py.newline ++ Py.newline)%string).
  { unfold page_content. rewrite Hh1, Hdiv. reflexivity. }
  assert (Hw3 : w3 = fold_left (extract_row session_get file_write) after w2).
  { apply extract_articles_app. }
  split; [exact Hw3 |].
  assert (Hw2 : w2 = extract_row session_get file_write w1 r) by reflexivity.
  rewrite extract_row_unfold in Hw2. unfold row_write, row_line in Hw2.
  rewrite Hpage, Hcontent in Hw2. fold path in Hw2.
  destruct (file_write path (Py.newline ++ Py.newline)) as [| e | e remains].
  - assert (Hfiles : files w2 = <[path := (Py.newline ++ Py.newline)%string]> (files w1)).
    { rewrite Hw2. reflexivity. }
    assert (Hout : stdout w2 = stdout w1 ++ [Saved (article_file (URL_ID r))]).
    { rewrite Hw2. reflexivity. }
    split; [exact Hfiles |]. split; [exact Hout |].
    rewrite Hw3. split.
    + apply extract_rows_keep; [exact (Info "") |].
      rewrite Hfiles, lookup_insert_eq. eauto.
    + apply extract_rows_keep; [exact "" |].
      rewrite Hout. apply elem_of_app. right. apply list_elem_of_singleton. reflexivity.
  - rewrite Hw2. split; reflexivity.
  - rewrite Hw2. split; reflexivity.
Qed.

End ExtractionFacts.

(** C5 (as stated): a 2xx response with an empty page would be a failure,
    logged and with no file written.  On [blank_site], with a file system
    that takes the write, the row is saved. *)
Lemma empty_page_not_a_failure :
  let r := {| URL_ID := "42"; URL := "http://example.com/a" |} in
  let w := extract_articles blank_site plain_disk [r] empty_world in
  ~ (files w !! article_path "42" = None
     /\ exists e, Failed "42" e ∈ stdout w).
Proof.
  intros r w [Hfile _]. vm_compute in Hfile. discriminate Hfile.
Qed.

Lemma empty_page_is_saved_witness :
  let r := {| URL_ID := "42"; URL := "http://example.com/a" |} in
  let page := {| find_h1 := None; find_content_div := None |} in
  let resp := {| status_code := 200; parsed := Ok page |} in
  let path := article_path (URL_ID r) in
  let w1 := extract_articles blank_site plain_disk [] empty_world in
  let w2 := extract_row blank_site plain_disk w1 r in
  let w3 := extract_articles blank_site plain_disk ([] ++ r :: []) empty_world in
  (blank_site (URL r) = Ok resp
   /\ 200 <= status_code resp < 300
   /\ parsed resp = Ok page
   /\ find_h1 page = None
   /\ find_content_div page = None)
  /\ w3 = fold_left (extract_row blank_site plain_disk) [] w2
  /\ files w2 = <[path := (Py.newline ++ Py.newline)%string]> (files w1)
  /\ stdout w2 = stdout w1 ++ [Saved (article_file (URL_ID r))]
  /\ is_Some (files w3 !! path)
  /\ Saved (article_file (URL_ID r)) ∈ stdout w3.
Proof.
  intros r page resp path w1 w2 w3. split.
  - repeat split; cbn; lia.
  - apply (empty_page_is_saved blank_site plain_disk [] [] r resp page empty_world);
      [reflexivity | cbn; lia | reflexivity | reflexivity | reflexivity].
Defined.

(** The same empty page under an id that names a sub-folder which is not
    there: the file cannot be opened, the row is logged as failed with the
    error of the file system, and no file is written. *)
Example unwritable_article_is_failed :
  let r := {| URL_ID := "a/b"; URL := "http://example.com/a" |} in
  extract_articles blank_site flat_disk [r] empty_world =
  {| files := ∅;
     stdout := [ Info "Extracting articles...";
                 Failed "a/b" (OSError "No such file or directory") ] |}.
Proof. vm_compute. reflexivity. Qed.

(** ** The retries of the adapter *)

Lemma is_exhausted_total (c : counters) :
  total_left c <= connect_left c -> total_left c <= read_left c ->
  is_exhausted c = (total_left c <? 0)%Z.
Proof.
  intros Hc Hr. unfold is_exhausted. cbn [List.filter].
  destruct (Z.eqb_spec (total_left c) 0), (Z.eqb_spec (connect_left c) 0),
           (Z.eqb_spec (read_left c) 0); cbn [negb fold_left];
    repeat match goal with
           | |- context [(?x <? ?y)%Z] => destruct (Z.ltb_spec x y)
           end; try reflexivity; lia.
Qed.

Lemma gets_app (l k : list event) : gets (l ++ k) = (gets l + gets k)%nat.
Proof. unfold gets. rewrite List.filter_app, length_app. reflexivity. Qed.

Lemma gets_sleep_backoff (a : retry_arguments) (c : counters) :
  gets (sleep_backoff a c) = 0%nat.
Proof. unfold sleep_backoff. destruct (_ <=? _)%Z; reflexivity. Qed.

Lemma gets_sleep (a : retry_arguments) (c : counters) (h : retry_after)
    (events : list event) :
  sleep a c h = Ok events -> gets events = 0%nat.
Proof.
  destruct h as [| seconds | blank]; cbn [sleep].
  - intros [= <-]. apply gets_sleep_backoff.
  - destruct (Qle_bool seconds 0); intros [= <-]; [apply gets_sleep_backoff | reflexivity].
  - discriminate.
Qed.

Lemma sleep_backoff_after (c : counters) :
  sleep_backoff retries c =
  match history c with
  | 0%nat | 1%nat => []
  | 2%nat => [Sleep 2]
  | 3%nat => [Sleep 4]
  | _ => sleep_backoff retries c
  end.
Proof.
  unfold sleep_backoff, get_backoff_time.
  destruct (history c) as [| [| [| [| n]]]]; reflexivity.
Qed.

(** One attempt of a GET under the program's [retries]: a retry follows
    only a retryable outcome, uses up one of the retries left, and, with no
    Retry-After header, pauses for the backoff. *)
Lemma after_attempt_get (c : counters) (o : attempt) :
  total_left c <= connect_left c -> total_left c <= read_left c ->
  match after_attempt retries c "GET" o with
  | Return _ => True
  | TryAgain c' pause =>
      retryable o = true
      /\ history c' = S (history c)
      /\ total_left c' = total_left c - 1
      /\ 0 <= total_left c'
      /\ total_left c' <= connect_left c'
      /\ total_left c' <= read_left c'
      /\ gets pause = 0%nat
      /\ (header o = NoRetryAfter -> pause = sleep_backoff retries c')
  end.
Proof.
  intros Hc Hr.
  assert (Hfinish : forall c' pause,
             history c' = S (history c) ->
             total_left c' = total_left c - 1 ->
             total_left c' <= connect_left c' ->
             total_left c' <= read_left c' ->
             retryable o = true ->
             (forall events, pause c' = Ok events -> gets events = 0%nat) ->
             (header o = NoRetryAfter -> pause c' = Ok (sleep_backoff retries c')) ->
             match (if is_exhausted c' then Raise max_retries_exceeded else Ok c') with
             | Raise e => True
             | Ok c'' =>
                 match pause c'' with
                 | Raise e => True
                 | Ok events =>
                     retryable o = true
                     /\ history c'' = S (history c)
                     /\ total_left c'' = total_left c - 1
                     /\ 0 <= total_left c''
                     /\ total_left c'' <= connect_left c''
                     /\ total_left c'' <= read_left c''
                     /\ gets events = 0%nat
                     /\ (header o = NoRetryAfter -> events = sleep_backoff retries c'')
                 end
             end).
  { intros c' pause Hh Ht Hc' Hr' Ho Hg Hp.
    rewrite (is_exhausted_total c' Hc' Hr').
    destruct (Z.ltb_spec (total_left c') 0) as [Hneg | Hpos]; [exact I |].
    destruct (pause c') as [events | e] eqn:Hpause; [| exact I].
    repeat split; try assumption.
    - apply Hg. reflexivity.
    - intros Hno. specialize (Hp Hno). congruence. }
  destruct o as [msg | msg | msg | r h]; cbn [after_attempt increment].
  - specialize (Hfinish {| total_left := total_left c - 1;
                           connect_left := connect_left c - 1;
                           read_left := read_left c;
                           history := S (history c) |}
                        (fun c' => Ok (sleep_backoff retries c'))).
    cbn [history total_left connect_left read_left] in Hfinish.
    specialize (Hfinish eq_refl eq_refl ltac:(lia) ltac:(lia) eq_refl
                        ltac:(intros events [= <-]; apply gets_sleep_backoff)
                        (fun _ => eq_refl)).
    destruct (is_exhausted _); [exact I | exact Hfinish].
  - change (is_method_retryable retries "GET") with true. cbn [negb].
    specialize (Hfinish {| total_left := total_left c - 1;
                           connect_left := connect_left c;
                           read_left := read_left c - 1;
                           history := S (history c) |}
                        (fun c' => Ok (sleep_backoff retries c'))).
    cbn [history total_left connect_left read_left] in Hfinish.
    specialize (Hfinish eq_refl eq_refl ltac:(lia) ltac:(lia) eq_refl
                        ltac:(intros events [= <-]; apply gets_sleep_backoff)
                        (fun _ => eq_refl)).
    destruct (is_exhausted _); [exact I | exact Hfinish].
  - specialize (Hfinish {| total_left := total_left c - 1;
                           connect_left := connect_left c;
                           read_left := read_left c;
                           history := S (history c) |}
                        (fun c' => Ok (sleep_backoff retries c'))).
    cbn [history total_left connect_left read_left] in Hfinish.
    specialize (Hfinish eq_refl eq_refl ltac:(lia) ltac:(lia) eq_refl
                        ltac:(intros events [= <-]; apply gets_sleep_backoff)
                        (fun _ => eq_refl)).
    destruct (is_exhausted _); [exact I | exact Hfinish].
  - destruct (is_retry retries c "GET" (status_code r) (has_retry_after h)) eqn:Hretry;
      [| exact I].
    assert (Ho : retryable (Answer r h) = true).
    { unfold is_retry in Hretry. change (is_method_retryable retries "GET") with true in Hretry.
      cbn [negb] in Hretry. unfold retryable.
      change (status_forcelist retries) with [429; 500; 502; 503; 504] in Hretry.
      destruct (existsb (Z.eqb (status_code r)) [429; 500; 502; 503; 504]); [reflexivity |].
      apply andb_true_iff in Hretry as [Hretry Hcode].
      apply andb_true_iff in Hretry as [_ Hafter].
      unfold RETRY_AFTER_STATUS_CODES in Hcode. rewrite Hafter, Hcode. reflexivity. }
    specialize (Hfinish {| total_left := total_left c - 1;
                           connect_left := connect_left c;
                           read_left := read_left c;
                           history := S (history c) |}
                        (fun c' => sleep retries c' h)).
    cbn [history total_left connect_left read_left] in Hfinish.
    specialize (Hfinish eq_refl eq_refl ltac:(lia) ltac:(lia) Ho
                        ltac:(intros events; apply gets_sleep)).
    assert (Hp : header (Answer r h) = NoRetryAfter ->
                 sleep retries
                   {| total_left := total_left c - 1;
                      connect_left := connect_left c;
                      read_left := read_left c;
                      history := S (history c) |} h
                 = Ok (sleep_backoff retries
                         {| total_left := total_left c - 1;
                            connect_left := connect_left c;
                            read_left := read_left c;
                            history := S (history c) |})).
    { cbn [header]. intros ->. reflexivity. }
    specialize (Hfinish Hp).
    destruct (is_exhausted _); [exact I |].
    destruct (sleep retries _ h); [exact Hfinish | exact I].
Qed.

(** A GET under the program's [retries], from any point reached with
    [history c] failed attempts: [urlopen] returns, after no more attempts
    than are left. *)
Lemma urlopen_get (net : nat -> attempt) (fuel : nat) (c : counters) :
  (Z.to_nat (total_left c) < fuel)%nat ->
  total_left c = RETRY_TOTAL - Z.of_nat (history c) ->
  0 <= total_left c ->
  total_left c <= connect_left c ->
  total_left c <= read_left c ->
  exists events res,
    urlopen fuel retries net "GET" c = Some (Get :: events, res)
    /\ (history c + gets (Get :: events) <= 4)%nat
    /\ (forall k, (history c <= k)%nat -> (S k < history c + gets (Get :: events))%nat ->
                  retryable (net k) = true)
    /\ ((forall k, header (net k) = NoRetryAfter) ->
        pauses_from events [] =
        firstn (gets events) (skipn (history c) [[]; [2%Q]; [4%Q]])).
Proof.
  revert c. induction fuel as [| fuel IH]; intros c Hfuel Ht H0 Hc Hr; [lia |].
  cbn [urlopen].
  pose proof (after_attempt_get c (net (history c)) Hc Hr) as Hstep.
  unfold RETRY_TOTAL in Ht.
  destruct (after_attempt retries c "GET" (net (history c))) as [res | c' pause].
  - exists [], res. split; [reflexivity |].
    change (gets [Get]) with 1%nat. change (gets []) with 0%nat.
    split; [lia |]. split; [intros k Hk1 Hk2; lia | intros _; reflexivity].
  - destruct Hstep as (Ho & Hh & Ht' & H0' & Hc' & Hr' & Hg & Hp).
    destruct (IH c') as (events & res & Hrun & Hgets & Hretry & Hpauses);
      [lia | unfold RETRY_TOTAL; lia | lia | lia | lia |].
    rewrite Hrun. exists (pause ++ Get :: events), res.
    split; [reflexivity |].
    assert (Hcount : gets (Get :: pause ++ Get :: events) = S (gets (Get :: events))).
    { change (Get :: pause ++ Get :: events) with ([Get] ++ pause ++ Get :: events).
      rewrite !gets_app, Hg. reflexivity. }
    rewrite Hcount. rewrite Hh in Hgets, Hretry.
    split; [lia |]. split.
    + intros k Hk1 Hk2.
      destruct (Nat.eq_dec k (history c)) as [-> | Hne]; [exact Ho |].
      apply Hretry; lia.
    + intros Hno. specialize (Hpauses Hno). specialize (Hp (Hno (history c))).
      rewrite gets_app, Hg. rewrite Hp, sleep_backoff_after, Hh.
      rewrite Hh in Hpauses.
      change (gets (Get :: events)) with (S (gets events)).
      destruct (history c) as [| [| [| n]]].
      * cbn [app pauses_from rev]. rewrite Hpauses. reflexivity.
      * cbn [app pauses_from rev]. rewrite Hpauses. reflexivity.
      * cbn [app pauses_from rev]. rewrite Hpauses. reflexivity.
      * lia.
Qed.

Lemma adapter_send_returns (net : nat -> attempt) : is_Some (adapter_send net).
Proof.
  destruct (urlopen_get net (S (Z.to_nat (total retries))) (new_retry retries))
    as (events & res & Hrun & _);
    try (unfold new_retry, retries, RETRY_TOTAL;
         cbn [total_left connect_left read_left history total connect read]; lia).
  unfold adapter_send. rewrite Hrun. eauto.
Qed.

(** C6 (as stated): no URL would see more than three GET attempts.  A
    server that answers 503 every time sees four: the first attempt and
    the three retries that [total=3] allows; the adapter does not pause
    before the first retry, and pauses 2 and 4 seconds before the second
    and the third. *)
Lemma busy_server_gets_four_attempts :
  adapter_send busy_server =
    Some ([Get; Get; Sleep 2; Get; Sleep 4; Get], Raise max_retries_exceeded)
  /\ ~ (gets [Get; Get; Sleep 2; Get; Sleep 4; Get] <= 3)%nat
  /\ pauses [Get; Get; Sleep 2; Get; Sleep 4; Get] <> [[1%Q]; [2%Q]; [4%Q]].
Proof.
  split; [vm_compute; reflexivity |].
  split; [vm_compute; lia | vm_compute; discriminate].
Qed.

(** C6 (amended): for every URL and whatever the network does, one GET of
    the session through the adapter returns after at least one and at most
    [1 + RETRY_TOTAL] = 4 attempts: the first one and up to three retries.
    An attempt is followed by another only if it ended in a connection
    error, a read error, another error of the transport, a status of
    429, 500, 502, 503 or 504, or a status of 413, 429 or 503 that came
    with a Retry-After header.  When no answer carries a Retry-After
    header, the adapter does not sleep before the first retry, sleeps 2
    seconds before the second and 4 seconds before the third. *)
Theorem get_attempts_bounded (net : nat -> attempt) :
  exists events res,
    adapter_send net = Some (events, res)
    /\ (1 <= gets events)%nat
    /\ Z.of_nat (gets events) <= 1 + RETRY_TOTAL
    /\ (forall k, (S k < gets events)%nat -> retryable (net k) = true)
    /\ ((forall k, header (net k) = NoRetryAfter) ->
        pauses events = firstn (gets events - 1) [[]; [2%Q]; [4%Q]]).
Proof.
  destruct (urlopen_get net (S (Z.to_nat (total retries))) (new_retry retries))
    as (events & res & Hrun & Hgets & Hretry & Hpauses);
    try (unfold new_retry, retries, RETRY_TOTAL;
         cbn [total_left connect_left read_left history total connect read]; lia).
  exists (Get :: events), res. split; [exact Hrun |].
  cbn [new_retry history] in Hgets, Hretry, Hpauses.
  change (gets (Get :: events)) with (S (gets events)) in *.
  split; [lia |]. split; [unfold RETRY_TOTAL; lia |]. split.
  - intros k Hk. apply Hretry; lia.
  - intros Hno. unfold pauses. cbn [pauses_from rev tl].
    rewrite (Hpauses Hno). replace (S (gets events) - 1)%nat with (gets events) by lia.
    reflexivity.
Qed.

Lemma get_attempts_bounded_witness :
  (forall k, header (busy_server k) = NoRetryAfter)
  /\ exists events res,
       adapter_send busy_server = Some (events, res)
       /\ (1 <= gets events)%nat
       /\ Z.of_nat (gets events) <= 1 + RETRY_TOTAL
       /\ (forall k, (S k < gets events)%nat -> retryable (busy_server k) = true)
       /\ pauses events = firstn (gets events - 1) [[]; [2%Q]; [4%Q]].
Proof.
  assert (Hno : forall k, header (busy_server k) = NoRetryAfter) by reflexivity.
  split; [exact Hno |].
  destruct (get_attempts_bounded busy_server)
    as (events & res & Hrun & Hmin & Hmax & Hretry & Hpauses).
  exists events, res. repeat split; try assumption. apply Hpauses, Hno.
Defined.

(** ** The driver *)

Section DriverFacts.

Variable sent_tokenize : string -> list string.
Variable word_tokenize : string -> list string.
Variable session_get : string -> result response.
Variable file_write : string -> string -> write_outcome.

Lemma files_print (l : line) (w : world) : files (print l w) = files w.
Proof. reflexivity. Qed.

(** The analysis loop appends to [results] one row for each request that
    has a stored article, in the order of the requests. *)
Lemma analyze_rows_spec (df : list row) (fs : gmap string string)
    (sw pw nw : gset string) (results : list (list cell)) :
  exists rows,
    analyze_rows sent_tokenize word_tokenize df fs sw pw nw results = Ok (results ++ rows)
    /\ Forall2 (is_report_row sent_tokenize word_tokenize fs sw pw nw)
               (filter (has_article fs) df) rows.
Proof.
  revert results. induction df as [| r df IH]; intros results.
  - exists []. split; [cbn; rewrite app_nil_r; reflexivity | constructor].
  - cbn [analyze_rows]. fold (article_path (URL_ID r)).
    destruct (fs !! article_path (URL_ID r)) as [text |] eqn:Hfile.
    + destruct (analyze_text_total sent_tokenize word_tokenize text sw pw nw)
        as (metrics & Hv & _).
      rewrite Hv. cbn [mbind result_bind].
      destruct (IH (results ++ [[Str (URL_ID r); Str (URL r)] ++ map Num metrics]))
        as (rows & Hrows & Hall).
      eexists (_ :: rows). split.
      * rewrite Hrows, <- app_assoc. reflexivity.
      * rewrite filter_cons_True by (unfold has_article; rewrite Hfile; eauto).
        constructor; [| exact Hall].
        exists text. eexists. split; [exact Hfile |]. split; [exact Hv | reflexivity].
    + destruct (IH results) as (rows & Hrows & Hall).
      exists rows. split; [exact Hrows |].
      rewrite filter_cons_False; [exact Hall |].
      unfold has_article. rewrite Hfile. intros [? ?]. discriminate.
Qed.



End DriverFacts.

(** Five requests, one of which cannot be fetched: four rows, in the order
    of the four requests that were saved. *)
Example report_of_sample_requests :
  exists w' out,
    main sample_sentences sample_words sample_site plain_disk
      sample_requests ∅ {["love"]} ∅ empty_world = Ok (w', out)
    /\ map row_key (df_rows out) =
       [ [Str "a"; Str "http://site/a"]; [Str "b"; Str "http://site/b"];
         [Str "d"; Str "http://site/d"]; [Str "e"; Str "http://site/e"] ]
    /\ Failed "c" (HTTPError 404) ∈ stdout w'.
Proof.
  do 2 eexists. split; [vm_compute; reflexivity |].
  split; [reflexivity |].
  cbn [stdout]. repeat first [apply list_elem_of_here | apply list_elem_of_further].
Qed.

(** ** Worked examples *)

(** The two float literals of the program, as binary64 numbers. *)
Example round_literals :
  round (4 # 10) == 3602879701896397 # 9007199254740992
  /\ round (1 # 1000000) == 4722366482869645 # 4722366482869645213696.
Proof. split; vm_compute; reflexivity. Qed.

(** "I love this. We love that." with no stop words and "love" as the only
    positive word: two sentences, six words, two of them positive, none
    negative or complex, two personal pronouns. *)
Example metrics_of_two_sentences :
  exists v,
    analyze_text sample_sentences sample_words "I love this. We love that." ∅ {["love"]} ∅
      = Ok v
    /\ len (sample_sentences "I love this. We love that.") = 2
    /\ v !! 0%nat = Some (PyInt 2) /\ v !! 1%nat = Some (PyInt 0)
    /\ v !! 8%nat = Some (PyInt 0) /\ v !! 9%nat = Some (PyInt 6)
    /\ v !! 11%nat = Some (PyInt 2)
    /\ (exists avg, v !! 4%nat = Some (PyFloat avg) /\ avg == 3).
Proof.
  eexists. split; [vm_compute; reflexivity |].
  repeat split. eexists. split; [reflexivity | vm_compute; reflexivity].
Qed.

(** * Further properties of the program *)

(** ** Characters and case *)

Lemma lower_char_idem (c : ascii) : Py.lower_char (Py.lower_char c) = Py.lower_char c.
Proof. destruct c as [[] [] [] [] [] [] [] []]; reflexivity. Qed.

Lemma lower_idem (s : string) : Py.lower (Py.lower s) = Py.lower s.
Proof.
  induction s as [| c s IH]; [reflexivity |].
  cbn [Py.lower]. rewrite lower_char_idem, IH. reflexivity.
Qed.

Lemma isalpha_nonempty (s : string) : Py.isalpha s = true -> s <> "".
Proof. destruct s; [discriminate | discriminate]. Qed.

(** ** The cleaned words *)

Lemma lower_nonempty (s : string) : s <> "" -> Py.lower s <> "".
Proof. destruct s; [congruence | discriminate]. Qed.

Lemma cleaned_words_clean (words : list string) (stop_words : gset string) :
  Forall (fun w => w <> "" /\ (w ∉ stop_words)
                   /\ exists t, t ∈ words /\ Py.isalpha t = true /\ w = Py.lower t)
         (cleaned_words_of words stop_words).
Proof.
  unfold cleaned_words_of. apply Forall_forall. intros w Hw.
  apply list_elem_of_In, in_map_iff in Hw as (t & <- & Ht).
  apply list_elem_of_In, list_elem_of_filter in Ht as [[Halpha Hstop] Hin].
  apply Is_true_true in Halpha.
  split; [apply lower_nonempty, isalpha_nonempty, Halpha |].
  split; [exact Hstop |].
  exists t. split; [exact Hin |]. split; [exact Halpha | reflexivity].
Qed.


(** ** Syllable counts *)

(** A scan finds at most one vowel group for every two characters. *)
Lemma syllable_scan_bound (vowels word : string) (count : Z) (prev_vowel : bool) :
  count <= syllable_scan vowels word count prev_vowel
  /\ 2 * (syllable_scan vowels word count prev_vowel - count)
     <= Z.of_nat (String.length word) + (if prev_vowel then 0 else 1).
Proof.
  revert count prev_vowel. induction word as [| c word IH]; intros count prev_vowel.
  - cbn [syllable_scan String.length]. destruct prev_vowel; lia.
  - cbn [syllable_scan String.length].
    destruct (Py.char_in c vowels).
    + destruct prev_vowel.
      * specialize (IH count true). lia.
      * specialize (IH (count + 1) true). lia.
    + specialize (IH count false). destruct prev_vowel; lia.
Qed.

(** X2: The lower-case form of a complex word, in which the syllables are
    counted, has at least five characters. *)
Theorem complex_words_are_long (word : string) :
  is_complex word = true -> (5 <= String.length (Py.lower word))%nat.
Proof.
  unfold is_complex, count_syllables. intros Hc. apply Z.ltb_lt in Hc.
  pose proof (syllable_scan_bound "aeiou" (Py.lower word) 0 false) as Hb.
  destruct (Py.endswith_any (Py.lower word) ["es"; "ed"]); lia.
Qed.

Lemma complex_words_are_long_witness :
  is_complex "opera" = true /\ (5 <= String.length (Py.lower "opera"))%nat.
Proof.
  split; [reflexivity |].
  apply (complex_words_are_long "opera"). reflexivity.
Defined.

Lemma syllable_scan_no_vowel (vowels word : string) (count : Z) (prev_vowel : bool) :
  Py.forallb_str (fun c => negb (Py.char_in c vowels)) word = true ->
  syllable_scan vowels word count prev_vowel = count.
Proof.
  revert prev_vowel. induction word as [| c word IH]; intros prev_vowel Hw.
  - reflexivity.
  - cbn [Py.forallb_str] in Hw. apply andb_true_iff in Hw as [Hc Hw].
    cbn [syllable_scan]. apply negb_true_iff in Hc. rewrite Hc. apply IH, Hw.
Qed.

(** X3: A word none of whose letters is a vowel, in either case, counts for one
    syllable; this covers the empty word and words of digits. *)
Theorem count_syllables_no_vowel (word : string) :
  Py.forallb_str (fun c => negb (Py.char_in c "aeiou")) (Py.lower word) = true ->
  count_syllables word = 1 /\ is_complex word = false.
Proof.
  intros Hw. unfold is_complex, count_syllables.
  rewrite (syllable_scan_no_vowel _ _ _ _ Hw).
  destruct (Py.endswith_any (Py.lower word) ["es"; "ed"]); split; reflexivity.
Qed.

Lemma count_syllables_no_vowel_witness :
  Py.forallb_str (fun c => negb (Py.char_in c "aeiou")) (Py.lower "Rhythm") = true
  /\ count_syllables "Rhythm" = 1 /\ is_complex "Rhythm" = false.
Proof.
  split; [reflexivity |].
  apply (count_syllables_no_vowel "Rhythm"). reflexivity.
Defined.

(** ** The matches of the pronoun pattern *)

Lemma substring_take_word (s : string) :
  substring 0 (String.length (take_word s)) s = take_word s.
Proof.
  induction s as [| c s IH]; [reflexivity |].
  cbn [take_word]. destruct (Py.isword_char c); [| reflexivity].
  cbn [String.length substring]. rewrite IH. reflexivity.
Qed.

Lemma filter_pronoun_word (w : string) (ws : list string) :
  filter (fun w => Is_true (is_pronoun w)) (flush w ++ ws) =
  (if is_pronoun w then [w] else []) ++ filter (fun w => Is_true (is_pronoun w)) ws.
Proof.
  destruct w as [| c w]; [reflexivity |].
  cbn [flush app]. destruct (is_pronoun (String c w)) eqn:Hp.
  - rewrite filter_cons_True by (rewrite Hp; exact I). reflexivity.
  - rewrite filter_cons_False by (rewrite Hp; exact id). reflexivity.
Qed.

(** The scan returns the whole-word pronouns themselves, in the order and
    in the letter case in which the text has them. *)
Lemma findall_pronoun_words (s : string) :
  forall (prev : option ascii) (skip : nat),
    (skip <> 0%nat ->
     is_word prev = true /\ (skip <= String.length (take_word s))%nat) ->
    findall_from true pronoun_pattern prev s skip =
    filter (fun w => Is_true (is_pronoun w))
           (word_runs_from "" (if is_word prev then drop_word s else s)).
Proof.
  induction s as [| c s IH]; intros prev skip Hskip.
  - cbn [findall_from]. rewrite match_here_pronoun, andb_false_r.
    destruct skip, (is_word prev); reflexivity.
  - cbn [findall_from]. destruct skip as [| n].
    + rewrite match_here_pronoun.
      destruct (at_boundary prev (String c s) && is_pronoun (take_word (String c s)))
        eqn:Hm.
      * apply andb_true_iff in Hm as [Hb Hp].
        unfold at_boundary in Hb. cbn [head_char is_word] in Hb.
        rewrite length_take_word, substring_take_word.
        destruct (Py.isword_char c) eqn:Hc;
          [| cbn [take_word] in Hp; rewrite Hc in Hp; discriminate Hp].
        destruct (is_word prev); [discriminate Hb |].
        rewrite (word_runs_unfold (String c s)), filter_pronoun_word, Hp.
        cbn [take_word drop_word]. rewrite Hc.
        cbn [String.length Nat.sub app]. rewrite Nat.sub_0_r.
        rewrite IH by (intros _; cbn; rewrite Hc; split; [reflexivity | lia]).
        cbn [is_word]. rewrite Hc. reflexivity.
      * rewrite IH by (intros H; contradiction).
        cbn [is_word]. unfold at_boundary in Hm. cbn [head_char is_word] in Hm.
        destruct (is_word prev), (Py.isword_char c) eqn:Hc.
        -- cbn [drop_word]. rewrite Hc. reflexivity.
        -- cbn [drop_word word_runs_from]. rewrite Hc. cbn [word_runs_from]. rewrite Hc.
           reflexivity.
        -- cbn [xorb andb] in Hm.
           rewrite (word_runs_unfold (String c s)), filter_pronoun_word, Hm.
           cbn [drop_word]. rewrite Hc. reflexivity.
        -- cbn [word_runs_from]. rewrite Hc. reflexivity.
    + destruct Hskip as [Hprev Hlen]; [discriminate |].
      cbn [take_word] in Hlen. destruct (Py.isword_char c) eqn:Hc; [| cbn in Hlen; lia].
      cbn [String.length] in Hlen.
      rewrite IH by (intros _; cbn; rewrite Hc; split; [reflexivity | lia]).
      rewrite Hprev. cbn [is_word drop_word]. rewrite Hc. reflexivity.
Qed.

Lemma findall_pronoun_list (text : string) :
  findall pronoun_pattern text true =
  filter (fun w => Is_true (is_pronoun w)) (word_runs text).
Proof.
  unfold findall, word_runs.
  rewrite (findall_pronoun_words text None 0%nat) by (intros Hskip; contradiction).
  reflexivity.
Qed.

(** X4: [re.findall] with the pronoun pattern returns exactly the words of the
    text that are pronouns, in text order and in their original letter
    case. *)
Theorem findall_returns_pronoun_words (text : string) :
  findall pronoun_pattern text true =
  filter (fun w => Is_true (is_pronoun w)) (word_runs text).
Proof. exact (findall_pronoun_list text). Qed.

(** *** Texts put together *)

Lemma word_runs_from_join (a b cur : string) (c : ascii) :
  Py.isword_char c = false ->
  word_runs_from cur (a ++ String c b) = word_runs_from cur a ++ word_runs_from "" b.
Proof.
  intros Hc. revert cur. induction a as [| x a IH]; intros cur.
  - change ("" ++ String c b)%string with (String c b).
    cbn [word_runs_from]. rewrite Hc. reflexivity.
  - rewrite append_cons. cbn [word_runs_from].
    destruct (Py.isword_char x); [apply IH |].
    rewrite IH, app_assoc. reflexivity.
Qed.

(** X6: Two texts joined by a character that is not a word character have the
    pronouns of both: the count of the whole is the sum of the counts. *)
Theorem pronoun_count_additive (a b : string) (c : ascii) :
  Py.isword_char c = false ->
  count_personal_pronouns (a ++ String c b) =
  count_personal_pronouns a + count_personal_pronouns b.
Proof.
  intros Hc. unfold count_personal_pronouns.
  rewrite !findall_pronoun_list. unfold word_runs.
  rewrite (word_runs_from_join a b "" c Hc), filter_app, length_app. lia.
Qed.

Lemma pronoun_count_additive_witness :
  Py.isword_char " " = false
  /\ count_personal_pronouns ("We left" ++ String " " "my bus") =
     count_personal_pronouns "We left" + count_personal_pronouns "my bus".
Proof.
  split; [reflexivity |].
  apply (pronoun_count_additive "We left" "my bus" " "). reflexivity.
Defined.

(** ** Article paths *)







(** ** What the extraction leaves behind *)

Lemma last_write_acc (path : string) (ws : list (string * string)) (acc : option string) :
  last_write path ws acc =
  match last_write path ws None with
  | Some v => Some v
  | None => acc
  end.
Proof.
  unfold last_write. revert acc. induction ws as [| [k v] ws IH]; intros acc.
  - reflexivity.
  - cbn [fold_left fst snd]. rewrite (IH (if decide (k = path) then Some v else acc)).
    rewrite (IH (if decide (k = path) then Some v else None)).
    destruct (fold_left _ ws None); [reflexivity |].
    destruct (decide (k = path)); reflexivity.
Qed.

Lemma lookup_write_all (path : string) (ws : list (string * string)) (m : gmap string string) :
  write_all ws m !! path = last_write path ws (m !! path).
Proof.
  unfold write_all, last_write. revert m. induction ws as [| [k v] ws IH]; intros m.
  - reflexivity.
  - cbn [fold_left fst snd]. rewrite IH, lookup_insert.
    destruct (decide (k = path)); reflexivity.
Qed.

Section ExtractionRowFacts.

Variable session_get : string -> result response.
Variable file_write : string -> string -> write_outcome.

Lemma extract_rows_unfold (df : list row) (w : world) :
  files (fold_left (extract_row session_get file_write) df w) =
    write_all (omap (row_write session_get file_write) df) (files w)
  /\ stdout (fold_left (extract_row session_get file_write) df w) =
     stdout w ++ map (row_line session_get file_write) df.
Proof.
  revert w. induction df as [| r df IH]; intros w.
  - split; [reflexivity | cbn; rewrite app_nil_r; reflexivity].
  - cbn [fold_left]. destruct (IH (extract_row session_get file_write w r)) as [-> ->].
    rewrite extract_row_unfold. cbn [files stdout omap list_omap map].
    split.
    + destruct (row_write session_get file_write r) as [[k v] |]; reflexivity.
    + rewrite <- app_assoc. reflexivity.
Qed.

Lemma extract_articles_stdout (df : list row) (w : world) :
  stdout (extract_articles session_get file_write df w) =
  stdout w ++ Info "Extracting articles..." :: map (row_line session_get file_write) df.
Proof.
  unfold extract_articles.
  destruct (extract_rows_unfold df (print (Info "Extracting articles...") w)) as [_ ->].
  cbn [print stdout]. rewrite <- app_assoc. reflexivity.
Qed.

(** X8: The extraction prints its heading and then one line for each request,
    in request order: "Saved" with the file name when the request, the
    parsing of the page and the writing of the file all went through,
    "Failed" with the id and the exception when one of them raised. *)
Theorem extraction_log (df : list row) (w : world) :
  stdout (extract_articles session_get file_write df w) =
  stdout w ++ Info "Extracting articles..." :: map (row_line session_get file_write) df.
Proof. exact (extract_articles_stdout df w). Qed.

Lemma extraction_files (df : list row) (w : world) :
  files (extract_articles session_get file_write df w) =
  write_all (omap (row_write session_get file_write) df) (files w).
Proof.
  unfold extract_articles.
  destruct (extract_rows_unfold df (print (Info "Extracting articles...") w)) as [-> _].
  reflexivity.
Qed.

(** X9: Running the extraction a second time on the same answers leaves the
    files as the first run left them. *)
Theorem extraction_idempotent (df : list row) (w : world) :
  files (extract_articles session_get file_write df
           (extract_articles session_get file_write df w)) =
  files (extract_articles session_get file_write df w).
Proof.
  rewrite !extraction_files. apply map_eq. intros path.
  rewrite !lookup_write_all.
  rewrite (last_write_acc path _ (last_write _ _ _)).
  rewrite (last_write_acc path _ (files w !! path)).
  destruct (last_write path (omap (row_write session_get file_write) df) None); reflexivity.
Qed.

End ExtractionRowFacts.

(** ** The report and the requests *)

Lemma filter_ext_in {A : Type} (P Q : A -> Prop)
    `{!forall x, Decision (P x)} `{!forall x, Decision (Q x)} (l : list A) :
  (forall x, x ∈ l -> P x <-> Q x) -> filter P l = filter Q l.
Proof.
  induction l as [| x l IH]; intros Hpq; [reflexivity |].
  assert (Hx : P x <-> Q x) by (apply Hpq, list_elem_of_here).
  assert (Hl : filter P l = filter Q l).
  { apply IH. intros y Hy. apply Hpq, list_elem_of_further, Hy. }
  destruct (decide (P x)) as [Hp | Hp].
  - rewrite !filter_cons_True by tauto. rewrite Hl. reflexivity.
  - rewrite !filter_cons_False by tauto. exact Hl.
Qed.

Section ReportFacts.

Variable sent_tokenize : string -> list string.
Variable word_tokenize : string -> list string.
Variable session_get : string -> result response.
Variable file_write : string -> string -> write_outcome.

(** The table of [main] has the fixed header and one row for each request
    that has an article file once the extraction is over. *)
Lemma main_spec (df : list row) (sw pw nw : gset string) (w : world) :
  let fs := files (extract_articles session_get file_write df w) in
  exists w' rows,
    main sent_tokenize word_tokenize session_get file_write df sw pw nw w
      = Ok (w', {| df_columns := columns; df_rows := rows |})
    /\ files w' = fs
    /\ Forall2 (is_report_row sent_tokenize word_tokenize fs sw pw nw)
               (filter (has_article fs) df) rows.
Proof.
  intros fs. unfold main.
  set (w1 := print (Info "Performing text analysis...")
               (extract_articles session_get file_write df
                  (print (Info "Loading resources...") w))).
  assert (Hfs : files w1 = fs).
  { unfold w1, fs. cbn [print files]. rewrite !extraction_files. reflexivity. }
  destruct (analyze_rows_spec sent_tokenize word_tokenize df (files w1) sw pw nw [])
    as (rows & Hrows & Hall).
  rewrite Hrows. cbn [mbind result_bind mret result_ret app].
  do 2 eexists. split; [reflexivity |].
  cbn [files print]. rewrite <- Hfs. split; [reflexivity | exact Hall].
Qed.

Lemma report_row_length (fs : gmap string string) (sw pw nw : gset string)
    (r : row) (cells : list cell) :
  is_report_row sent_tokenize word_tokenize fs sw pw nw r cells ->
  length cells = 15%nat.
Proof.
  intros (text & metrics & _ & Hm & ->).
  destruct (analyze_text_total sent_tokenize word_tokenize text sw pw nw)
    as (metrics' & Hm' & Hlen).
  rewrite Hm in Hm'. injection Hm' as <-.
  rewrite length_app, length_map, Hlen. reflexivity.
Qed.

(** X13: Whenever [main] gets as far as its table, the table is well shaped:
    it has the fifteen columns of the header, every row has exactly one
    cell for each column, and there are no more rows than requests. *)
Theorem report_rows_fit_columns (df : list row) (sw pw nw : gset string)
    (w w' : world) (out : dataframe) :
  main sent_tokenize word_tokenize session_get file_write df sw pw nw w = Ok (w', out) ->
  length (df_columns out) = 15%nat
  /\ Forall (fun cells => length cells = length (df_columns out)) (df_rows out)
  /\ (length (df_rows out) <= length df)%nat.
Proof.
  intros Hout.
  destruct (main_spec df sw pw nw w) as (w'' & rows & Hmain & _ & Hall).
  rewrite Hmain in Hout. injection Hout as _ <-. cbn [df_columns df_rows].
  split; [reflexivity |]. split.
  - apply Forall_forall. intros cells Hcells.
    apply list_elem_of_lookup in Hcells as [i Hi].
    destruct (Forall2_lookup_r _ _ _ _ _ Hall Hi) as (r & _ & Hrow).
    apply (report_row_length _ _ _ _ _ _ Hrow).
  - rewrite <- (Forall2_length _ _ _ Hall). apply length_filter.
Qed.

End ReportFacts.

Lemma report_rows_fit_columns_witness :
  exists w' out,
    main sample_sentences sample_words sample_site plain_disk sample_requests
      ∅ {["love"]} ∅ empty_world = Ok (w', out)
    /\ length (df_columns out) = 15%nat
    /\ Forall (fun cells => length cells = length (df_columns out)) (df_rows out)
    /\ (length (df_rows out) <= length sample_requests)%nat.
Proof.
  assert (Hmain : exists w' out,
             main sample_sentences sample_words sample_site plain_disk sample_requests
               ∅ {["love"]} ∅ empty_world = Ok (w', out)).
  { do 2 eexists. vm_compute. reflexivity. }
  destruct Hmain as (w' & out & Hmain).
  exists w', out. split; [exact Hmain |].
  apply (report_rows_fit_columns sample_sentences sample_words sample_site plain_disk
           sample_requests ∅ {["love"]} ∅ empty_world w' out Hmain).
Defined.

(** ** The word lists *)

Lemma isspace_lower_char (c : ascii) :
  PyFile.isspace_char (Py.lower_char c) = PyFile.isspace_char c.
Proof. destruct c as [[] [] [] [] [] [] [] []]; reflexivity. Qed.

Lemma lower_char_fixes_space (c : ascii) :
  PyFile.isspace_char c = true -> Py.lower_char c = c.
Proof. destruct c as [[] [] [] [] [] [] [] []]; (reflexivity || discriminate). Qed.

Lemma lstrip_lower (s : string) : PyFile.lstrip (Py.lower s) = Py.lower (PyFile.lstrip s).
Proof.
  induction s as [| c s IH]; [reflexivity |].
  cbn [Py.lower PyFile.lstrip]. rewrite isspace_lower_char.
  destruct (PyFile.isspace_char c); [exact IH | reflexivity].
Qed.

Lemma eqb_empty_lower (s : string) : String.eqb (Py.lower s) "" = String.eqb s "".
Proof. destruct s; reflexivity. Qed.

Lemma rstrip_lower (s : string) : PyFile.rstrip (Py.lower s) = Py.lower (PyFile.rstrip s).
Proof.
  induction s as [| c s IH]; [reflexivity |].
  cbn [Py.lower PyFile.rstrip]. rewrite isspace_lower_char, IH, eqb_empty_lower.
  destruct (PyFile.isspace_char c && String.eqb (PyFile.rstrip s) ""); reflexivity.
Qed.

Lemma strip_lower (s : string) : PyFile.strip (Py.lower s) = Py.lower (PyFile.strip s).
Proof. unfold PyFile.strip. rewrite lstrip_lower, rstrip_lower. reflexivity. Qed.

Lemma lstrip_starts_clean (s : string) : starts_clean (PyFile.lstrip s) = true.
Proof.
  induction s as [| c s IH]; [reflexivity |].
  cbn [PyFile.lstrip]. destruct (PyFile.isspace_char c) eqn:Hc; [exact IH |].
  cbn. rewrite Hc. reflexivity.
Qed.

Lemma lstrip_clean (s : string) : starts_clean s = true -> PyFile.lstrip s = s.
Proof.
  destruct s as [| c s]; [reflexivity |].
  cbn. intros Hc. apply negb_true_iff in Hc. rewrite Hc. reflexivity.
Qed.

Lemma rstrip_starts_clean (s : string) :
  starts_clean s = true -> starts_clean (PyFile.rstrip s) = true.
Proof.
  destruct s as [| c s]; [reflexivity |].
  cbn [starts_clean PyFile.rstrip]. intros Hc. apply negb_true_iff in Hc.
  rewrite Hc. cbn. rewrite Hc. reflexivity.
Qed.

Lemma rstrip_idem (s : string) : PyFile.rstrip (PyFile.rstrip s) = PyFile.rstrip s.
Proof.
  induction s as [| c s IH]; [reflexivity |].
  cbn [PyFile.rstrip].
  destruct (PyFile.isspace_char c && String.eqb (PyFile.rstrip s) "") eqn:Hc;
    [reflexivity |].
  cbn [PyFile.rstrip]. rewrite IH, Hc. reflexivity.
Qed.

Lemma strip_idem (s : string) : PyFile.strip (PyFile.strip s) = PyFile.strip s.
Proof.
  unfold PyFile.strip.
  rewrite (lstrip_clean (PyFile.rstrip (PyFile.lstrip s)))
    by apply rstrip_starts_clean, lstrip_starts_clean.
  apply rstrip_idem.
Qed.

Lemma elem_of_load_dictionary (content w : string) :
  w ∈ load_dictionary content
  <-> exists line, line ∈ PyFile.readlines content /\ w = Py.lower (PyFile.strip line).
Proof.
  unfold load_dictionary. rewrite elem_of_list_to_set, list_elem_of_In, in_map_iff.
  split; intros (line & H1 & H2).
  - exists line. rewrite list_elem_of_In. split; [exact H2 | symmetry; exact H1].
  - exists line. rewrite <- list_elem_of_In. split; [symmetry; exact H2 | exact H1].
Qed.

(** X16: Every entry of a loaded word list is in lower case and has no white
    space at either end, whatever the file holds. *)
Theorem dictionary_entries_normal (content w : string) :
  w ∈ load_dictionary content -> Py.lower w = w /\ PyFile.strip w = w.
Proof.
  intros Hw. apply elem_of_load_dictionary in Hw as (line & _ & ->).
  split; [apply lower_idem |].
  rewrite <- strip_lower, strip_idem. reflexivity.
Qed.

Lemma dictionary_entries_normal_witness :
  "happy" ∈ load_dictionary ("  Happy " ++ Py.newline ++ "SAD")
  /\ Py.lower "happy" = "happy" /\ PyFile.strip "happy" = "happy".
Proof.
  assert (Hin : "happy" ∈ load_dictionary ("  Happy " ++ Py.newline ++ "SAD")).
  { vm_compute. reflexivity. }
  split; [exact Hin |].
  apply (dictionary_entries_normal ("  Happy " ++ Py.newline ++ "SAD") "happy" Hin).
Defined.

Lemma elem_of_load_stopwords_from (folder : list (string * string)) (acc : gset string)
    (w : string) :
  w ∈ fold_left
        (fun (stop_words : gset string) (entry : string * string) =>
           if Py.endswith entry.1 ".txt"
           then stop_words
                  ∪ list_to_set (map (fun word => Py.lower (PyFile.strip word))
                                     (PyFile.readlines entry.2))
           else stop_words)
        folder acc
  <-> w ∈ acc
      \/ exists file content,
           (file, content) ∈ folder
           /\ Py.endswith file ".txt" = true
           /\ w ∈ load_dictionary content.
Proof.
  revert acc. induction folder as [| [file content] folder IH]; intros acc.
  - cbn [fold_left]. split; [tauto |].
    intros [Hw | (f & c & Hin & _)]; [exact Hw |]. apply elem_of_nil in Hin. contradiction.
  - cbn [fold_left fst snd]. rewrite IH. fold (load_dictionary content). split.
    + intros [Hw | (f & c & Hin & Htxt & Hw)].
      * destruct (Py.endswith file ".txt") eqn:Htxt; [| left; exact Hw].
        apply elem_of_union in Hw as [Hw | Hw]; [left; exact Hw |].
        right. exists file, content. split; [apply list_elem_of_here | tauto].
      * right. exists f, c. split; [apply list_elem_of_further, Hin | tauto].
    + intros [Hw | (f & c & Hin & Htxt & Hw)].
      * left. destruct (Py.endswith file ".txt"); [apply elem_of_union; left |]; exact Hw.
      * apply elem_of_cons in Hin as [Heq | Hin].
        -- injection Heq as -> ->. left. rewrite Htxt. apply elem_of_union. right. exact Hw.
        -- right. exists f, c. tauto.
Qed.

Lemma elem_of_load_stopwords (folder : list (string * string)) (w : string) :
  w ∈ load_stopwords folder
  <-> exists file content,
        (file, content) ∈ folder
        /\ Py.endswith file ".txt" = true
        /\ w ∈ load_dictionary content.
Proof.
  unfold load_stopwords. rewrite elem_of_load_stopwords_from. split.
  - intros [Hw | Hex]; [apply not_elem_of_empty in Hw; contradiction | exact Hex].
  - intros Hex. right. exact Hex.
Qed.

(** X17: The stop words are the entries of the word lists of all the files of
    the folder whose name ends in ".txt" (in lower case: a file "x.TXT" is
    left out), each read as [load_dictionary] reads a file. *)
Theorem stopwords_are_union (folder : list (string * string)) (w : string) :
  w ∈ load_stopwords folder
  <-> exists file content,
        (file, content) ∈ folder
        /\ Py.endswith file ".txt" = true
        /\ w ∈ load_dictionary content.
Proof. exact (elem_of_load_stopwords folder w). Qed.

(** X18: The order in which the folder is listed does not matter. *)
Theorem stopwords_order_irrelevant (folder folder' : list (string * string)) :
  folder ≡ₚ folder' -> load_stopwords folder = load_stopwords folder'.
Proof.
  intros Hperm. apply set_eq. intros w. rewrite !elem_of_load_stopwords.
  split; intros (f & c & Hin & Hrest); exists f, c; split; try exact Hrest.
  - rewrite <- Hperm. exact Hin.
  - rewrite Hperm. exact Hin.
Qed.

Lemma stopwords_order_irrelevant_witness :
  [("a.txt", "The"); ("notes.md", "x"); ("b.txt", "of")]
    ≡ₚ [("b.txt", "of"); ("a.txt", "The"); ("notes.md", "x")]
  /\ load_stopwords [("a.txt", "The"); ("notes.md", "x"); ("b.txt", "of")]
     = load_stopwords [("b.txt", "of"); ("a.txt", "The"); ("notes.md", "x")].
Proof.
  assert (Hperm : [("a.txt", "The"); ("notes.md", "x"); ("b.txt", "of")]
                    ≡ₚ [("b.txt", "of"); ("a.txt", "The"); ("notes.md", "x")]).
  { symmetry.
    apply (Permutation_cons_append [("a.txt", "The"); ("notes.md", "x")] ("b.txt", "of")). }
  split; [exact Hperm |].
  apply (stopwords_order_irrelevant _ _ Hperm).
Defined.

(** ** More on the metrics *)

Lemma round_eq_zero (x : Q) : x == 0 -> round x == 0.
Proof. intros Hx. rewrite (round_proper x 0 Hx). apply round_zero. Qed.

Lemma round_ge_one (x : Q) : (1 <= x)%Q -> (1 <= round x)%Q.
Proof. intros Hx. rewrite <- round_one. apply round_mono, Hx. Qed.

Lemma py_sum_ge_len (l : list Z) : Forall (fun z => 1 <= z) l -> len l <= py_sum l.
Proof.
  unfold len. induction 1 as [| z l Hz _ IH]; [reflexivity |].
  rewrite py_sum_cons. cbn [length]. lia.
Qed.

(** A ratio of a whole to one of its parts is at least 1. *)
Lemma ratio_of_whole (a b : Z) (x : pynum) :
  0 < b <= a -> ratio_or_zero a b = Ok x -> (1 <= to_Q x)%Q.
Proof.
  intros Hab Hx. destruct (ratio_or_zero_spec a b) as (y & Hy & _ & Hnz).
  rewrite Hy in Hx. injection Hx as <-. rewrite Hnz by lia. cbn [to_Q].
  apply round_ge_one. apply Qle_shift_div_l; [apply inject_Z_pos; lia |].
  rewrite Qmult_1_l, <- Zle_Qle. lia.
Qed.

Lemma scores_of_disjoint_lexicons (cw : list string) (pw nw : gset string) :
  pw ## nw -> lexicon_score cw pw + lexicon_score cw nw <= len cw.
Proof.
  intros Hdisj. unfold lexicon_score. rewrite !py_sum_ones. unfold len.
  induction cw as [| w cw IH]; [reflexivity |].
  destruct (decide (w ∈ pw)) as [Hp | Hp], (decide (w ∈ nw)) as [Hn | Hn].
  - exfalso. apply (elem_of_disjoint pw nw) in Hdisj. exact (Hdisj w Hp Hn).
  - rewrite (filter_cons_True (fun w => w ∈ pw)), (filter_cons_False (fun w => w ∈ nw))
      by assumption. cbn [length]. lia.
  - rewrite (filter_cons_False (fun w => w ∈ pw)), (filter_cons_True (fun w => w ∈ nw))
      by assumption. cbn [length]. lia.
  - rewrite (filter_cons_False (fun w => w ∈ pw)), (filter_cons_False (fun w => w ∈ nw))
      by assumption. cbn [length]. lia.
Qed.

(** The quotient [a / (w + 0.000001)] for [0 <= a <= w]. *)
Lemma shifted_ratio_spec (a w : Z) :
  0 <= a <= w ->
  exists q, py_truediv (PyInt a) (py_add (PyInt w) epsilon) = Ok (PyFloat q)
            /\ (0 <= q)%Q /\ (q <= 1)%Q /\ (a = 0 -> q == 0).
Proof.
  intros Haw.
  destruct (shifted_divisor w) as (b & -> & Hb & Hwb); [lia |].
  cbn [py_truediv as_float]. rewrite (Qeq_bool_pos _ Hb).
  eexists. split; [reflexivity |].
  assert (Ha : (0 <= round (inject_Z a))%Q) by (apply round_nonneg, inject_Z_nonneg; lia).
  assert (Hab : (round (inject_Z a) <= b)%Q).
  { apply Qle_trans with (round (inject_Z w)); [| exact Hwb].
    apply round_mono. rewrite <- Zle_Qle. lia. }
  split; [apply round_nonneg, Qdiv_nonneg; assumption |].
  split.
  - apply round_in_unit; apply Qdiv_in_unit; try exact Hb; lra.
  - intros ->. apply round_eq_zero.
    rewrite (round_zero : round (inject_Z 0) == 0). unfold Qdiv. apply Qmult_0_l.
Qed.

Lemma polarity_sign (p n : Z) :
  0 <= p -> 0 <= n ->
  exists q, polarity_score_of p n = Ok (PyFloat q)
            /\ (n <= p -> (0 <= q)%Q) /\ (p <= n -> (q <= 0)%Q).
Proof.
  intros Hp Hn. unfold polarity_score_of.
  destruct (shifted_divisor (p + n)) as (b & -> & Hb & _); [lia |].
  cbn [py_truediv as_float]. rewrite (Qeq_bool_pos _ Hb).
  eexists. split; [reflexivity |]. split; intros Hpn.
  - apply round_nonneg, Qdiv_nonneg; [| exact Hb].
    apply round_nonneg, inject_Z_nonneg. lia.
  - apply round_nonpos. apply Qle_shift_div_r; [exact Hb |]. rewrite Qmult_0_l.
    apply round_nonpos. change 0%Q with (inject_Z 0). rewrite <- Zle_Qle. lia.
Qed.

Section MetricFacts.

Variable sent_tokenize : string -> list string.
Variable word_tokenize : string -> list string.

(** X19: When there are cleaned words, the syllables per word and the average
    word length are at least 1: every cleaned word has a syllable and a
    letter.  When there are none, both are the integer 0. *)
Theorem per_word_averages (text : string) (sw pw nw : gset string) :
  exists v spw awl,
    analyze_text sent_tokenize word_tokenize text sw pw nw = Ok v
    /\ v !! 10%nat = Some spw /\ v !! 12%nat = Some awl
    /\ (len (cleaned_words_of (word_tokenize text) sw) = 0
        -> spw = PyInt 0 /\ awl = PyInt 0)
    /\ (len (cleaned_words_of (word_tokenize text) sw) <> 0
        -> (1 <= to_Q spw)%Q /\ (1 <= to_Q awl)%Q).
Proof.
  destruct (analyze_text_spec sent_tokenize word_tokenize text sw pw nw)
    as (pol & subj & avg & pct & spw & awl & Hv & _ & _ & _ & _ & Hspw & Hawl).
  pose proof (cleaned_words_clean (word_tokenize text) sw) as Hcw.
  set (cw := cleaned_words_of (word_tokenize text) sw) in *.
  eexists. exists spw, awl. split; [exact Hv |].
  split; [reflexivity |]. split; [reflexivity |]. split.
  - intros Hz. rewrite Hz in Hspw, Hawl.
    apply ratio_zero_denominator in Hspw, Hawl. tauto.
  - intros Hnz. pose proof (len_nonneg cw) as Hlen. split.
    + apply (ratio_of_whole _ _ _) with (2 := Hspw). split; [lia |].
      transitivity (len (map count_syllables cw)).
      * unfold len. rewrite length_map. reflexivity.
      * apply py_sum_ge_len, Forall_forall. intros z Hz.
        apply list_elem_of_In, in_map_iff in Hz as (w & <- & _). apply count_syllables_floor.
    + apply (ratio_of_whole _ _ _) with (2 := Hawl). split; [lia |].
      transitivity (len (map str_len cw)).
      * unfold len. rewrite length_map. reflexivity.
      * apply py_sum_ge_len, Forall_forall. intros z Hz.
        apply list_elem_of_In, in_map_iff in Hz as (w & <- & Hw).
        rewrite Forall_forall in Hcw. apply list_elem_of_In, Hcw in Hw as [Hne _].
        unfold str_len. destruct w; [contradiction | cbn; lia].
Qed.

(** X20: The polarity score has the sign of the difference of the two scores:
    not negative when the positive words are at least as many as the
    negative ones, not positive when they are at most as many. *)
Theorem polarity_follows_majority (text : string) (sw pw nw : gset string) :
  exists v p n pol,
    analyze_text sent_tokenize word_tokenize text sw pw nw = Ok v
    /\ v !! 0%nat = Some (PyInt p) /\ v !! 1%nat = Some (PyInt n)
    /\ v !! 2%nat = Some pol
    /\ (n <= p -> (0 <= to_Q pol)%Q)
    /\ (p <= n -> (to_Q pol <= 0)%Q)
    /\ (p = n -> to_Q pol == 0).
Proof.
  destruct (analyze_text_spec sent_tokenize word_tokenize text sw pw nw)
    as (pol & subj & avg & pct & spw & awl & Hv & Hpol & _).
  set (cw := cleaned_words_of (word_tokenize text) sw) in *.
  destruct (polarity_sign (lexicon_score cw pw) (lexicon_score cw nw))
    as (q & Hq & Hge & Hle); [apply lexicon_score_bounds .. |].
  rewrite Hq in Hpol. injection Hpol as <-.
  eexists. exists (lexicon_score cw pw), (lexicon_score cw nw), (PyFloat q).
  split; [exact Hv |]. do 3 (split; [reflexivity |]). cbn [to_Q].
  split; [exact Hge |]. split; [exact Hle |].
  intros Heq. apply Qle_antisym; [apply Hle | apply Hge]; lia.
Qed.

(** X21: With positive and negative word lists that share no word, the
    subjectivity score lies in [0, 1]. *)
Theorem subjectivity_in_unit_interval (text : string) (sw pw nw : gset string) :
  pw ## nw ->
  exists v subj,
    analyze_text sent_tokenize word_tokenize text sw pw nw = Ok v
    /\ v !! 3%nat = Some subj
    /\ (0 <= to_Q subj)%Q /\ (to_Q subj <= 1)%Q.
Proof.
  intros Hdisj.
  destruct (analyze_text_spec sent_tokenize word_tokenize text sw pw nw)
    as (pol & subj & avg & pct & spw & awl & Hv & _ & Hsubj & _).
  set (cw := cleaned_words_of (word_tokenize text) sw) in *.
  pose proof (lexicon_score_bounds cw pw) as Hp.
  pose proof (lexicon_score_bounds cw nw) as Hn.
  pose proof (scores_of_disjoint_lexicons cw pw nw Hdisj) as Hsum.
  destruct (shifted_ratio_spec (lexicon_score cw pw + lexicon_score cw nw) (len cw))
    as (q & Hq & Hq0 & Hq1 & _); [lia |].
  unfold subjectivity_score_of in Hsubj. rewrite Hq in Hsubj. injection Hsubj as <-.
  eexists. exists (PyFloat q). split; [exact Hv |].
  split; [reflexivity |]. split; [exact Hq0 | exact Hq1].
Qed.

(** X22: Without cleaned words every metric but the pronoun count is 0: the two
    scores, polarity, subjectivity, the averages, the fog index and the
    counts. *)
Theorem metrics_zero_without_words (text : string) (sw pw nw : gset string) :
  len (cleaned_words_of (word_tokenize text) sw) = 0 ->
  exists v,
    analyze_text sent_tokenize word_tokenize text sw pw nw = Ok v
    /\ forall (i : nat) (x : pynum), i <> 11%nat -> v !! i = Some x -> to_Q x == 0.
Proof.
  intros Hwc.
  destruct (analyze_text_spec sent_tokenize word_tokenize text sw pw nw)
    as (pol & subj & avg & pct & spw & awl & Hv & Hpol & Hsubj & Havg & Hpct & Hspw & Hawl).
  set (cw := cleaned_words_of (word_tokenize text) sw) in *.
  pose proof (lexicon_score_bounds cw pw) as Hp.
  pose proof (lexicon_score_bounds cw nw) as Hn.
  assert (Hp0 : lexicon_score cw pw = 0) by lia.
  assert (Hn0 : lexicon_score cw nw = 0) by lia.
  assert (Hc0 : len (filter (fun w => Is_true (is_complex w)) cw) = 0).
  { pose proof (len_filter_le (fun w => Is_true (is_complex w)) cw).
    pose proof (len_nonneg (filter (fun w => Is_true (is_complex w)) cw)). lia. }
  rewrite Hp0, Hn0, Hwc in *. rewrite Hc0 in *.
  destruct (shifted_ratio_spec 0 0) as (q & Hq & _ & _ & Hq0); [lia |].
  change (polarity_score_of 0 0) with (py_truediv (PyInt 0) (py_add (PyInt 0) epsilon)) in Hpol.
  change (subjectivity_score_of 0 0 0)
    with (py_truediv (PyInt 0) (py_add (PyInt 0) epsilon)) in Hsubj.
  rewrite Hq in Hpol, Hsubj. injection Hpol as <-. injection Hsubj as <-.
  specialize (Hq0 eq_refl).
  apply ratio_zero_numerator in Havg.
  apply ratio_zero_denominator in Hpct, Hspw, Hawl. subst pct spw awl.
  assert (Hfog : to_Q (py_mul (float_literal (4 # 10)) (py_add avg (PyInt 0))) == 0).
  { destruct avg as [z | a]; cbn [to_Q] in Havg.
    - assert (z = 0) as ->.
      { unfold Qeq in Havg. cbn in Havg. lia. }
      cbn [py_add py_mul float_literal as_float to_Q Z.add].
      apply round_eq_zero. rewrite (round_zero : round (inject_Z 0) == 0).
      apply Qmult_0_r.
    - cbn [py_add py_mul float_literal as_float to_Q].
      apply round_eq_zero.
      rewrite (round_eq_zero (a + round (inject_Z 0))); [apply Qmult_0_r |].
      rewrite (round_zero : round (inject_Z 0) == 0), Havg. reflexivity. }
  eexists. split; [exact Hv |].
  intros i x Hi Hx.
  do 13 (destruct i as [| i]; [cbn in Hx; injection Hx as <-;
                               first [reflexivity | assumption | contradiction] |]).
  cbn in Hx. discriminate Hx.
Qed.

(** X23: The result depends on the three word sets only through the
    lower-case forms of alphabetic tokens that they hold: two stop-word
    sets, two positive and two negative sets that hold the same such forms
    give the same result.  An empty entry, for one, never matters. *)
Theorem only_clean_entries_matter (text : string) (sw pw nw sw' pw' nw' : gset string) :
  same_clean_words sw sw' -> same_clean_words pw pw' -> same_clean_words nw nw' ->
  analyze_text sent_tokenize word_tokenize text sw pw nw =
  analyze_text sent_tokenize word_tokenize text sw' pw' nw'.
Proof.
  intros Hsw Hpw Hnw.
  assert (Hcw : cleaned_words_of (word_tokenize text) sw =
                cleaned_words_of (word_tokenize text) sw').
  { unfold cleaned_words_of. f_equal. apply filter_ext_in. intros w _.
    split; intros [Ha Hs]; (split; [exact Ha |]); intros Hin; apply Hs;
      apply Is_true_true in Ha; apply (Hsw w Ha); exact Hin. }
  assert (Hscore : forall A B, same_clean_words A B ->
            lexicon_score (cleaned_words_of (word_tokenize text) sw') A =
            lexicon_score (cleaned_words_of (word_tokenize text) sw') B).
  { intros A B HAB. unfold lexicon_score. do 2 f_equal.
    apply filter_ext_in. intros w Hw.
    pose proof (cleaned_words_clean (word_tokenize text) sw') as Hn.
    rewrite Forall_forall in Hn. destruct (Hn w Hw) as (_ & _ & t & _ & Ha & ->).
    apply HAB, Ha. }
  unfold analyze_text. rewrite Hcw, (Hscore pw pw' Hpw), (Hscore nw nw' Hnw).
  reflexivity.
Qed.

End MetricFacts.

Lemma same_clean_words_refl (A : gset string) : same_clean_words A A.
Proof. intros t _. reflexivity. Qed.

Lemma subjectivity_in_unit_interval_witness :
  ({["love"]} : gset string) ## ({["hate"]} : gset string)
  /\ exists v subj,
       analyze_text sample_sentences sample_words "I love this. We hate that."
         ∅ {["love"]} {["hate"]} = Ok v
       /\ v !! 3%nat = Some subj
       /\ (0 <= to_Q subj)%Q /\ (to_Q subj <= 1)%Q.
Proof.
  assert (Hdisj : ({["love"]} : gset string) ## ({["hate"]} : gset string)).
  { apply disjoint_singleton_l. intros Hin. apply elem_of_singleton in Hin. discriminate Hin. }
  split; [exact Hdisj |].
  apply (subjectivity_in_unit_interval sample_sentences sample_words
           "I love this. We hate that." ∅ {["love"]} {["hate"]} Hdisj).
Defined.

Lemma metrics_zero_without_words_witness :
  len (cleaned_words_of (sample_words "The the.") {["the"]}) = 0
  /\ exists v,
       analyze_text sample_sentences sample_words "The the." {["the"]} {["love"]} ∅ = Ok v
       /\ forall (i : nat) (x : pynum), i <> 11%nat -> v !! i = Some x -> to_Q x == 0.
Proof.
  split; [vm_compute; reflexivity |].
  apply (metrics_zero_without_words sample_sentences sample_words).
  vm_compute; reflexivity.
Defined.

Lemma only_clean_entries_matter_witness :
  same_clean_words {["the"]} ({["the"]} ∪ {[""]})
  /\ same_clean_words {["love"]} {["love"]}
  /\ same_clean_words ∅ ∅
  /\ analyze_text sample_sentences sample_words "I love the bus." {["the"]} {["love"]} ∅
     = analyze_text sample_sentences sample_words "I love the bus."
         ({["the"]} ∪ {[""]}) {["love"]} ∅.
Proof.
  assert (Hsw : same_clean_words {["the"]} ({["the"]} ∪ {[""]})).
  { intros t Ha. rewrite elem_of_union, !elem_of_singleton. split.
    - intros Ht. left. exact Ht.
    - intros [Ht | Ht]; [exact Ht |].
      destruct t; [discriminate Ha | discriminate Ht]. }
  split; [exact Hsw |].
  split; [apply same_clean_words_refl |].
  split; [apply same_clean_words_refl |].
  apply (only_clean_entries_matter sample_sentences sample_words "I love the bus."
           {["the"]} {["love"]} ∅ ({["the"]} ∪ {[""]}) {["love"]} ∅ Hsw);
    apply same_clean_words_refl.
Defined.

(** ** What [main] prints *)

(** X24: When [main] runs to its end it has printed, in this order: the
    loading message, the heading of the extraction, one "Saved" or
    "Failed" line for each request, the heading of the analysis and the
    two closing messages.  The analysis prints nothing for a request, with
    or without an article. *)
Theorem main_output_log (sent_tokenize word_tokenize : string -> list string)
    (session_get : string -> result response)
    (file_write : string -> string -> write_outcome)
    (df : list row) (sw pw nw : gset string) (w w' : world) (out : dataframe) :
  main sent_tokenize word_tokenize session_get file_write df sw pw nw w = Ok (w', out) ->
  stdout w' =
    stdout w
    ++ [Info "Loading resources..."; Info "Extracting articles..."]
    ++ map (row_line session_get file_write) df
    ++ [ Info "Performing text analysis...";
         Info "Analysis completed successfully.";
         Info "Output saved as: Output Data Structure.xlsx" ].
Proof.
  unfold main.
  set (w1 := print (Info "Performing text analysis...")
               (extract_articles session_get file_write df
                  (print (Info "Loading resources...") w))).
  destruct (analyze_rows_spec sent_tokenize word_tokenize df (files w1) sw pw nw [])
    as (rows & Hrows & _).
  rewrite Hrows. cbn [mbind result_bind mret result_ret app].
  intros [= <- _].
  unfold w1. cbn [print stdout]. rewrite extract_articles_stdout. cbn [print stdout].
  rewrite <- !app_assoc. reflexivity.
Qed.

Lemma main_output_log_witness :
  exists w' out,
    main sample_sentences sample_words sample_site flat_disk
      [ {| URL_ID := "a"; URL := "http://site/a" |};
        {| URL_ID := "a/b"; URL := "http://site/b" |};
        {| URL_ID := "c"; URL := "http://site/c" |} ]
      ∅ {["love"]} ∅ empty_world = Ok (w', out)
    /\ stdout w' =
       [ Info "Loading resources..."; Info "Extracting articles...";
         Saved "a.txt";
         Failed "a/b" (OSError "No such file or directory");
         Failed "c" (HTTPError 404);
         Info "Performing text analysis...";
         Info "Analysis completed successfully.";
         Info "Output saved as: Output Data Structure.xlsx" ].
Proof.
  assert (Hmain : exists w' out,
             main sample_sentences sample_words sample_site flat_disk
               [ {| URL_ID := "a"; URL := "http://site/a" |};
                 {| URL_ID := "a/b"; URL := "http://site/b" |};
                 {| URL_ID := "c"; URL := "http://site/c" |} ]
               ∅ {["love"]} ∅ empty_world = Ok (w', out)).
  { do 2 eexists. vm_compute. reflexivity. }
  destruct Hmain as (w' & out & Hmain).
  exists w', out. split; [exact Hmain |].
  rewrite (main_output_log sample_sentences sample_words sample_site flat_disk
             _ ∅ {["love"]} ∅ empty_world w' out Hmain).
  reflexivity.
Defined.

